(** * Shape-from-shading (sfs.cc): residual model, problem assembly, statistics

    A shallow embedding of [src/asp/Tools/sfs.cc] and the properties of it
    that the design document states.

    Modelling conventions.
    - A C++ [double] is a real number ([R]): rounding and overflow are not
      modelled.  The one IEEE effect kept is that a division by zero does
      not produce a real number: [fdiv] and [normalize] return [None] there
      and the enclosing function ends in the outcome [NotReal].  Divisions
      whose divisor the source tests first, or whose divisor is a non-zero
      constant, are written with the plain [/].
    - A C++ [int] is an integer ([Z]).  Every subtraction and increment on
      an [int] is on a dimension or on an index below a dimension, so no
      wrap-around can happen.
    - [exit(1)] is the outcome [Exited], a [camera::PointToPixelErr] in
      flight is the outcome [Thrown].
    - The global [g_errorCount] and the [vw_out(ErrorMessage)] stream are the
      two fields of [Globals], passed through every function that touches
      them.
    - The collaborators that are not part of sfs.cc (geo-reference, datum,
      camera, interpolated image, pixel validity, the solver) are fields of
      records or explicit arguments. *)

From Stdlib Require Import Reals Lra Lia ZArith List Bool String.
Import ListNotations.
Open Scope R_scope.

(** ** Comparisons on doubles *)

Definition Rltb (a b : R) : bool := if Rlt_dec a b then true else false.
Definition Rleb (a b : R) : bool := if Rle_dec a b then true else false.
Definition Rgtb (a b : R) : bool := Rltb b a.
Definition Rgeb (a b : R) : bool := Rleb b a.
Definition Reqb (a b : R) : bool := if Req_dec_T a b then true else false.

(** [a / b] on doubles where the source does not test [b]: a real number
    only when [b] is not zero. *)
Definition fdiv (a b : R) : option R :=
  if Req_dec_T b 0 then None else Some (a / b).

(** ** Outcomes and global state *)

Inductive res (A : Type) : Type :=
| Val (a : A)      (* the function returned [a] *)
| Thrown           (* camera::PointToPixelErr is propagating *)
| Exited           (* exit(1) was called *)
| NotReal.         (* a double left the real numbers (division by zero) *)
Arguments Val {A} a.
Arguments Thrown {A}.
Arguments Exited {A}.
Arguments NotReal {A}.

(** [int g_errorCount = 0;] and the text written to [vw_out(ErrorMessage)]. *)
Record Globals : Type := mkGlobals {
  g_errorCount : Z;
  ErrorMessage : list string
}.

Definition g_initial : Globals := mkGlobals 0 [].

(** A function that reads and writes the globals. *)
Definition M (A : Type) : Type := Globals -> res A * Globals.

Definition ret {A} (a : A) : M A := fun g => (Val a, g).

Definition bind {A B} (m : M A) (k : A -> M B) : M B :=
  fun g =>
    match m g with
    | (Val a, g') => k a g'
    | (Thrown, g') => (Thrown, g')
    | (Exited, g') => (Exited, g')
    | (NotReal, g') => (NotReal, g')
    end.

Definition lift {A} (r : res A) : M A := fun g => (r, g).

Notation "x <- m ;; k" := (bind m (fun x => k))
  (at level 61, m at next level, right associativity).

(** [for (int i = lo; i < hi; i++)]: the values [i] takes, in order. *)
Definition Zrange (lo hi : Z) : list Z :=
  map (fun k => (lo + Z.of_nat k)%Z) (seq 0 (Z.to_nat (hi - lo))).

(** A loop whose body runs in [M]: the first outcome that is not a normal
    return ends the loop. *)
Fixpoint for_each {I S : Type} (body : I -> S -> M S) (l : list I) (s : S) : M S :=
  match l with
  | [] => ret s
  | i :: l' => s' <- body i s ;; for_each body l' s'
  end.

(** ** Vectors (vw::Vector2, vw::Vector3) *)

Record Vector2 : Type := mkV2 { v2_0 : R; v2_1 : R }.
Record Vector3 : Type := mkV3 { v3_0 : R; v3_1 : R; v3_2 : R }.

Definition vsub (a b : Vector3) : Vector3 :=
  mkV3 (v3_0 a - v3_0 b) (v3_1 a - v3_1 b) (v3_2 a - v3_2 b).

Definition vneg (a : Vector3) : Vector3 :=
  mkV3 (- v3_0 a) (- v3_1 a) (- v3_2 a).

Definition dot_prod (a b : Vector3) : R :=
  v3_0 a * v3_0 b + v3_1 a * v3_1 b + v3_2 a * v3_2 b.

Definition cross_prod (a b : Vector3) : Vector3 :=
  mkV3 (v3_1 a * v3_2 b - v3_2 a * v3_1 b)
       (v3_2 a * v3_0 b - v3_0 a * v3_2 b)
       (v3_0 a * v3_1 b - v3_1 a * v3_0 b).

Definition norm_2 (a : Vector3) : R := sqrt (dot_prod a a).

(** [normalize(v) = v / norm_2(v)]: no real vector for the zero vector. *)
Definition normalize (a : Vector3) : option Vector3 :=
  if Req_dec_T (norm_2 a) 0 then None
  else Some (mkV3 (v3_0 a / norm_2 a) (v3_1 a / norm_2 a) (v3_2 a / norm_2 a)).

(** ** Images and external collaborators *)

(** [ImageView<double>]: dimensions and the pixel at (col, row). *)
Record ImageView : Type := mkImage {
  cols : Z;
  rows : Z;
  pixel : Z -> Z -> R
}.

(** [I.set_size(c, r)] on a fresh image: zero-filled pixels. *)
Definition set_size (c r : Z) : ImageView := mkImage c r (fun _ _ => 0).

(** [I(col, row) = v]. *)
Definition set_pixel (I : ImageView) (col row : Z) (v : R) : ImageView :=
  mkImage (cols I) (rows I)
    (fun c r => if ((c =? col) && (r =? row))%Z then v else pixel I c r).

(** [cartography::GeoReference] with its datum. *)
Record GeoReference : Type := mkGeo {
  pixel_to_lonlat : Vector2 -> Vector2;
  geodetic_to_cartesian : Vector3 -> Vector3
}.

(** [CameraModel::point_to_pixel]: [None] when it throws PointToPixelErr. *)
Record CameraModel : Type := mkCamera {
  point_to_pixel : Vector3 -> option Vector2
}.

(** [BilinearInterpT]: an image with bilinear interpolation at a fractional
    pixel, [image(x, y)]. *)
Record BilinearInterpT : Type := mkInterp {
  image_cols : Z;
  image_rows : Z;
  interp : R -> R -> R
}.

(** The fields of [GlobalParams] and [ModelParams] that sfs.cc reads. *)
Record GlobalParams : Type := mkGlobalParams {
  reflectanceType : Z;
  phaseCoeffC1 : R;
  phaseCoeffC2 : R
}.

Record ModelParams : Type := mkModelParams {
  sunPosition : Vector3;
  cameraPosition : Vector3
}.

(** [enum {NO_REFL = 0, LAMBERT, LUNAR_LAMBERT};] *)
Definition NO_REFL : Z := 0.
Definition LAMBERT : Z := 1.
Definition LUNAR_LAMBERT : Z := 2.

(** ** compute_image_stats *)

(** The pixels in the order the two loops visit them: columns outside, rows
    inside. *)
Definition image_cells (I : ImageView) : list (Z * Z) :=
  flat_map (fun col => map (fun row => (col, row)) (Zrange 0 (rows I)))
           (Zrange 0 (cols I)).

(** One pass of the loop body on the accumulators [(sum, sum2, count)]. *)
Definition stats_step (is_valid : R -> bool) (I : ImageView)
    (acc : R * R * R) (cr : Z * Z) : R * R * R :=
  let '(sum, sum2, count) := acc in
  let '(col, row) := cr in
  if negb (is_valid (pixel I col row)) then acc
  else
    let count := count + 1 in
    let val := pixel I col row in
    (sum + val, sum2 + val * val, count).

(** Lines 84-104.  Mean and standard deviation of an image; [is_valid] is
    vw's validity test of the pixel type. *)
Definition compute_image_stats (is_valid : R -> bool) (I : ImageView) : R * R :=
  let mean := 0 in
  let stdev := 0 in
  let '(sum, sum2, count) :=
    fold_left (stats_step is_valid I) (image_cells I) (0, 0, 0) in
  if Rgtb count 0 then
    let mean := sum / count in
    let stdev := sqrt (sum2 / count - mean * mean) in
    (mean, stdev)
  else (mean, stdev).

(** ** Reflectance models *)

(** Lines 251-264. *)
Definition computeLambertianReflectanceFromNormal
    (sunPos xyz normal : Vector3) : res R :=
  match normalize (vsub sunPos xyz) with
  | None => NotReal
  | Some sunDirection =>
    let reflectance :=
      v3_0 sunDirection * v3_0 normal + v3_1 sunDirection * v3_1 normal
      + v3_2 sunDirection * v3_2 normal in
    Val reflectance
  end.

(** Lines 267-353.  Returns the reflectance and what was written to the
    output [alpha] ([None] when the function returns before assigning it).
    [abs] is the absolute value of a double; the [printf] on a cosine
    outside [-1, 1] writes to the standard output and changes nothing
    else. *)
Definition computeLunarLambertianReflectanceFromNormal
    (sunPos viewPos xyz normal : Vector3) (phaseCoeffC1 phaseCoeffC2 : R)
    : res (R * option R) :=
  let len := dot_prod normal normal in
  if Rgtb (Rabs (len - 1.0)) 1.0e-4 then Exited
  else
  match normalize (vsub sunPos xyz) with
  | None => NotReal
  | Some sunDirection =>
    let mu_0 := dot_prod sunDirection normal in
    let tol := 0.3 in
    if Rltb mu_0 tol then Val (0.0, None)
    else
    match normalize (vsub viewPos xyz) with
    | None => NotReal
    | Some viewDirection =>
      let mu := dot_prod viewDirection normal in
      let cos_alpha := dot_prod sunDirection viewDirection in
      let alpha := acos cos_alpha in
      let deg_alpha := alpha * 180.0 / PI in
      let A := -0.019 in
      let B := 0.000242 in
      let C := -0.00000146 in
      let L := 1.0 + A * deg_alpha + B * deg_alpha * deg_alpha
               + C * deg_alpha * deg_alpha * deg_alpha in
      if Rltb mu_0 0.0 then Val (0.0, Some alpha)
      else
      let mu := if Rltb mu 0.0 then 0.0 else mu in
      if Reqb (mu_0 + mu) 0 then Val (0.0, Some alpha)
      else
      let reflectance := 2 * L * mu_0 / (mu_0 + mu) + (1 - L) * mu_0 in
      if Rleb reflectance 0 then Val (0.0, Some alpha)
      else
      let reflectance :=
        reflectance * (exp (- phaseCoeffC1 * alpha) + phaseCoeffC2) in
      Val (reflectance, Some alpha)
    end
  end.

(** Lines 355-388: the [switch] on the reflectance type, [default] last. *)
Definition ComputeReflectance (normal xyz : Vector3)
    (input_img_params : ModelParams) (global_params : GlobalParams)
    : res (R * option R) :=
  if (reflectanceType global_params =? LUNAR_LAMBERT)%Z then
    computeLunarLambertianReflectanceFromNormal
      (sunPosition input_img_params) (cameraPosition input_img_params)
      xyz normal (phaseCoeffC1 global_params) (phaseCoeffC2 global_params)
  else if (reflectanceType global_params =? LAMBERT)%Z then
    match computeLambertianReflectanceFromNormal
            (sunPosition input_img_params) xyz normal with
    | Val r => Val (r, None)
    | Thrown => Thrown
    | Exited => Exited
    | NotReal => NotReal
    end
  else Val (1, None).

(** ** computeReflectanceAndIntensity, one grid point *)

(** The no-data report: one line on the error stream and [g_errorCount++]. *)
Definition report_nodata (g : Globals) : Globals :=
  mkGlobals (g_errorCount g + 1)
            (ErrorMessage g ++ ["sfs cannot handle DEMs with no-data."%string]).

(** Lines 456-462: the range test on the projected pixel and the sample.
    [reflectance] and [intensity] are the current values of the two
    outputs. *)
Definition sample_pixel (image : BilinearInterpT) (pix : Vector2)
    (reflectance intensity : R) : bool * R * R :=
  if Rltb (v2_0 pix) 0 || Rgeb (v2_0 pix) (IZR (image_cols image - 1))
  then (false, reflectance, intensity)
  else if Rltb (v2_1 pix) 0 || Rgeb (v2_1 pix) (IZR (image_rows image - 1))
  then (false, reflectance, intensity)
  else
    let intensity := interp image (v2_0 pix) (v2_1 pix) in
    (true, reflectance, intensity).

(** Lines 390-463.  The result is the returned flag and the final values
    of the outputs [reflectance] and [intensity].  The pointer [A] is not
    dereferenced by the source and is left out. *)
Definition computeReflectanceAndIntensity
    (center_h right_h top_h : R) (col row : Z) (dem : ImageView)
    (geo : GeoReference) (nodata_val : R)
    (model_params : ModelParams) (global_params : GlobalParams)
    (image : BilinearInterpT) (camera : CameraModel)
    : M (bool * R * R) :=
  fun g =>
  let reflectance := 0 in
  let intensity := 0 in
  if ((col >=? cols dem - 1) || (row >=? rows dem - 1))%Z
  then (Val (false, reflectance, intensity), g)
  else
  let lonlat := pixel_to_lonlat geo (mkV2 (IZR col) (IZR row)) in
  let h := center_h in
  if Reqb h nodata_val && (g_errorCount g =? 0)%Z
  then (Val (false, reflectance, intensity), report_nodata g)
  else
  let lonlat3 := mkV3 (v2_0 lonlat) (v2_1 lonlat) h in
  let base := geodetic_to_cartesian geo lonlat3 in
  let lonlat := pixel_to_lonlat geo (mkV2 (IZR (col + 1)) (IZR row)) in
  let h := right_h in
  if Reqb h nodata_val && (g_errorCount g =? 0)%Z
  then (Val (false, reflectance, intensity), report_nodata g)
  else
  let lonlat3 := mkV3 (v2_0 lonlat) (v2_1 lonlat) h in
  let right := geodetic_to_cartesian geo lonlat3 in
  let lonlat := pixel_to_lonlat geo (mkV2 (IZR col) (IZR (row + 1))) in
  let h := top_h in
  if Reqb h nodata_val && (g_errorCount g =? 0)%Z
  then (Val (false, reflectance, intensity), report_nodata g)
  else
  let lonlat3 := mkV3 (v2_0 lonlat) (v2_1 lonlat) h in
  let top := geodetic_to_cartesian geo lonlat3 in
  let dx := vsub right base in
  let dy := vsub top base in
  match normalize (cross_prod dx dy) with
  | None => (NotReal, g)
  | Some n =>
    let normal := vneg n in
    match ComputeReflectance normal base model_params global_params with
    | Val (reflectance, _) =>
      match point_to_pixel camera base with
      | None => (Thrown, g)
      | Some pix => (Val (sample_pixel image pix reflectance intensity), g)
      end
    | Thrown => (Thrown, g)
    | Exited => (Exited, g)
    | NotReal => (NotReal, g)
    end
  end.

(** ** computeReflectanceAndIntensity, the whole grid *)

(** The cells the two loops visit, columns outside, rows inside. *)
Definition grid_cells (dem : ImageView) : list (Z * Z) :=
  flat_map (fun col => map (fun row => (col, row)) (Zrange 0 (rows dem - 1)))
           (Zrange 0 (cols dem - 1)).

(** The loop body: the returned flag is dropped, the two outputs are the
    pixels [reflectance(col, row)] and [intensity(col, row)]. *)
Definition grid_body (dem : ImageView) (geo : GeoReference) (nodata_val : R)
    (model_params : ModelParams) (global_params : GlobalParams)
    (image : BilinearInterpT) (camera : CameraModel)
    (cr : Z * Z) (out : ImageView * ImageView) : M (ImageView * ImageView) :=
  let '(col, row) := cr in
  let '(reflectance, intensity) := out in
  r <- computeReflectanceAndIntensity
         (pixel dem col row) (pixel dem (col + 1) row) (pixel dem col (row + 1))
         col row dem geo nodata_val model_params global_params image camera ;;
  let '(_, refl, inten) := r in
  ret (set_pixel reflectance col row refl, set_pixel intensity col row inten).

(** Lines 465-490. *)
Definition computeReflectanceAndIntensity_grid
    (dem : ImageView) (geo : GeoReference) (nodata_val : R)
    (model_params : ModelParams) (global_params : GlobalParams)
    (image : BilinearInterpT) (camera : CameraModel)
    : M (ImageView * ImageView) :=
  let reflectance := set_size (cols dem) (rows dem) in
  let intensity := set_size (cols dem) (rows dem) in
  for_each
    (grid_body dem geo nodata_val model_params global_params image camera)
    (grid_cells dem) (reflectance, intensity).

(** ** SfsCallback *)

(** [ceres::CallbackReturnType]. *)
Inductive CallbackReturnType : Type :=
| SOLVER_CONTINUE
| SOLVER_ABORT
| SOLVER_TERMINATE_SUCCESSFULLY.

(** What one call of [SfsCallback::operator()] leaves behind: the new value
    of the global [g_iter], the three rasters written under the names
    [-final-DEM-], [-measured-intensity-] and [-computed-intensity-] with
    the iteration number, the two pairs of statistics printed, and the
    returned code. *)
Record CallbackEffects : Type := mkCallbackEffects {
  cb_iter : Z;
  cb_final_DEM : ImageView;
  cb_measured_intensity : ImageView;
  cb_computed_intensity : ImageView;
  cb_img_stats : R * R;
  cb_ref_stats : R * R;
  cb_return : CallbackReturnType
}.

(** Lines 538-542: [reflectance(col, row) = g_A[0]*reflectance(col, row) +
    g_A[1]] over every pixel, in place. *)
Definition simulated_intensity (A : R * R) (reflectance : ImageView) : ImageView :=
  fold_left
    (fun I cr =>
       set_pixel I (fst cr) (snd cr) (fst A * pixel I (fst cr) (snd cr) + snd A))
    (image_cells reflectance) reflectance.

(** Lines 505-559.  [g_iter] is the value of the global before the call;
    the other globals the callback reads are arguments.  The effects are
    those of a call that returns: when the pass over the grid does not
    return, [g_iter] was incremented and the DEM written all the same, which
    the outcome does not record. *)
Definition SfsCallback (is_valid : R -> bool) (g_iter : Z)
    (dem : ImageView) (geo : GeoReference) (nodata_val : R) (A : R * R)
    (model_params : ModelParams) (global_params : GlobalParams)
    (image : BilinearInterpT) (camera : CameraModel) : M CallbackEffects :=
  let g_iter := (g_iter + 1)%Z in
  out <- computeReflectanceAndIntensity_grid dem geo nodata_val
           model_params global_params image camera ;;
  let '(reflectance, intensity) := out in
  let reflectance := simulated_intensity A reflectance in
  ret (mkCallbackEffects g_iter dem intensity reflectance
         (compute_image_stats is_valid intensity)
         (compute_image_stats is_valid reflectance)
         SOLVER_CONTINUE).

(** ** The residual functors *)

Record IntensityError : Type := mkIntensityError {
  m_col : Z;
  m_row : Z;
  m_dem : ImageView;
  m_geo : GeoReference;
  m_global_params : GlobalParams;
  m_model_params : ModelParams;
  m_image : BilinearInterpT;
  m_camera : CameraModel;
  m_nodata_val : R
}.

(** The nine heights of a neighbourhood, in the order of the arguments. *)
Record Neighborhood : Type := mkNb {
  tl : R; top : R; tr : R;
  left : R; center : R; right : R;
  bl : R; bottom : R; br : R
}.

(** Lines 579-608, [IntensityError::operator()]: the returned flag and
    [residuals[0]]. *)
Definition IntensityError_call (f : IntensityError) (A : R * R)
    (nb : Neighborhood) : M (bool * R) :=
  fun g =>
  let residuals0 := 1e+20 in
  match computeReflectanceAndIntensity (center nb) (right nb) (top nb)
          (m_col f) (m_row f) (m_dem f) (m_geo f) (m_nodata_val f)
          (m_model_params f) (m_global_params f) (m_image f) (m_camera f) g
  with
  | (Val (success, reflectance, intensity), g') =>
    let residuals0 :=
      if success then intensity - fst A * reflectance - snd A
      else residuals0 in
    (Val (success, residuals0), g')
  | (Thrown, g') => (Val (false, residuals0), g')   (* catch (PointToPixelErr) *)
  | (Exited, g') => (Exited, g')
  | (NotReal, g') => (NotReal, g')
  end.

Record SmoothnessError : Type := mkSmoothnessError {
  m_smoothness_weight : R;
  m_grid_size : R
}.

(** Lines 656-682, [SmoothnessError::operator()]: the returned flag and
    [residuals[0..3]].
    Nothing in the [try] block throws, so the [catch] clause has no
    counterpart. *)
Definition SmoothnessError_call (f : SmoothnessError) (nb : Neighborhood)
    : res (bool * (R * R * R * R)) :=
  let gs := m_grid_size f * m_grid_size f in
  match fdiv (left nb + right nb - 2 * center nb) gs,
        fdiv ((tr nb + bl nb - tl nb - br nb) / 4.0) gs,
        fdiv (top nb + bottom nb - 2 * center nb) gs with
  | Some r0, Some r1, Some r3 =>
    let r2 := r1 in
    Val (true, (r0 * m_smoothness_weight f, r1 * m_smoothness_weight f,
                r2 * m_smoothness_weight f, r3 * m_smoothness_weight f))
  | _, _, _ => NotReal
  end.

(** ** main: affine parameters and problem assembly *)

(** Lines 816-827: [A[0]] and [A[1]] from the statistics of the intensity
    and reflectance images of the initial DEM. *)
Definition estimate_A (is_valid : R -> bool)
    (dem : ImageView) (geo : GeoReference) (nodata_val : R)
    (model_params : ModelParams) (global_params : GlobalParams)
    (image : BilinearInterpT) (camera : CameraModel) : M (R * R) :=
  out <- computeReflectanceAndIntensity_grid dem geo nodata_val
           model_params global_params image camera ;;
  let '(reflectance, intensity) := out in
  let '(imgmean, imgstdev) := compute_image_stats is_valid intensity in
  let '(refmean, refstdev) := compute_image_stats is_valid reflectance in
  match fdiv imgstdev refstdev with
  | None => lift NotReal
  | Some A0 =>
    let A1 := imgmean - A0 * refmean in
    ret (A0, A1)
  end.

(** A parameter block is known by its address: the array [A] or the cell
    [&dem(col, row)]. *)
Inductive ParameterBlock : Type :=
| Block_A
| Block_dem (col row : Z).

(** What [IntensityError::Create] and [SmoothnessError::Create] wrap. *)
Inductive CostFunction : Type :=
| Cost_IntensityError (f : IntensityError)
| Cost_SmoothnessError (f : SmoothnessError).

(** [ceres::Problem] as far as main drives it: the residual blocks added
    (with a NULL loss function) and the blocks set constant. *)
Record Problem : Type := mkProblem {
  residual_blocks : list (CostFunction * list ParameterBlock);
  constant_blocks : list ParameterBlock
}.

Definition AddResidualBlock (cost : CostFunction) (blocks : list ParameterBlock)
    (p : Problem) : Problem :=
  mkProblem (residual_blocks p ++ [(cost, blocks)]) (constant_blocks p).

Definition SetParameterBlockConstant (b : ParameterBlock) (p : Problem) : Problem :=
  mkProblem (residual_blocks p) (b :: constant_blocks p).

Definition block_eqb (a b : ParameterBlock) : bool :=
  match a, b with
  | Block_A, Block_A => true
  | Block_dem c r, Block_dem c' r' => ((c =? c') && (r =? r'))%Z
  | _, _ => false
  end.

Definition is_constant (p : Problem) (b : ParameterBlock) : bool :=
  existsb (block_eqb b) (constant_blocks p).

(** The nine cells around (col, row), in the order tl, top, tr, left,
    center, right, bl, bottom, br. *)
Definition neighborhood_blocks (col row : Z) : list ParameterBlock :=
  [ Block_dem (col - 1) (row + 1); Block_dem col (row + 1);
    Block_dem (col + 1) (row + 1);
    Block_dem (col - 1) row; Block_dem col row; Block_dem (col + 1) row;
    Block_dem (col - 1) (row - 1); Block_dem col (row - 1);
    Block_dem (col + 1) (row - 1) ]%Z.

(** The calls to SetParameterBlockConstant made for (col, row), in order. *)
Definition boundary_blocks (ncols nrows col row : Z) : list ParameterBlock :=
  ((if col =? 1 then
      [Block_dem (col - 1) (row - 1); Block_dem (col - 1) row;
       Block_dem (col - 1) (row + 1)] else [])
   ++ (if row =? 1 then
      [Block_dem (col - 1) (row - 1); Block_dem col (row - 1);
       Block_dem (col + 1) (row - 1)] else [])
   ++ (if col =? ncols - 2 then
      [Block_dem (col + 1) (row - 1); Block_dem (col + 1) row;
       Block_dem (col + 1) (row + 1)] else [])
   ++ (if row =? nrows - 2 then
      [Block_dem (col - 1) (row + 1); Block_dem col (row + 1);
       Block_dem (col + 1) (row + 1)] else []))%Z.

(** The body of the two assembly loops (lines 835-888).  [create col row]
    is [IntensityError::Create(col, row, dem, geo, ...)] on main's locals. *)
Definition assemble_cell (create : Z -> Z -> IntensityError)
    (smoothness_weight grid_size : R) (ncols nrows : Z)
    (p : Problem) (cr : Z * Z) : Problem :=
  let '(col, row) := cr in
  let p := AddResidualBlock (Cost_IntensityError (create col row))
             (Block_A :: neighborhood_blocks col row) p in
  let p := AddResidualBlock
             (Cost_SmoothnessError (mkSmoothnessError smoothness_weight grid_size))
             (neighborhood_blocks col row) p in
  fold_left (fun p b => SetParameterBlockConstant b p)
            (boundary_blocks ncols nrows col row) p.

Definition interior_cells (ncols nrows : Z) : list (Z * Z) :=
  flat_map (fun col => map (fun row => (col, row)) (Zrange 1 (nrows - 1)))
           (Zrange 1 (ncols - 1)).

(** Lines 831-893: the problem main hands to the solver. *)
Definition assemble (create : Z -> Z -> IntensityError)
    (smoothness_weight grid_size : R) (ncols nrows : Z) : Problem :=
  let problem := mkProblem [] [] in
  let problem :=
    fold_left (assemble_cell create smoothness_weight grid_size ncols nrows)
              (interior_cells ncols nrows) problem in
  SetParameterBlockConstant Block_A problem.

(** What ceres::Solve may do to the heights: a block set constant keeps its
    value. *)
Definition solve_keeps_constant (p : Problem) (dem dem' : ImageView) : Prop :=
  forall col row,
    is_constant p (Block_dem col row) = true ->
    pixel dem' col row = pixel dem col row.

(** Lines 816-893 of main in sequence: the affine parameters are estimated
    on the DEM as read, then the problem is assembled. *)
Definition main_setup (is_valid : R -> bool) (smoothness_weight grid_size : R)
    (dem : ImageView) (geo : GeoReference) (nodata_val : R)
    (model_params : ModelParams) (global_params : GlobalParams)
    (image : BilinearInterpT) (camera : CameraModel) : M (R * R * Problem) :=
  A <- estimate_A is_valid dem geo nodata_val model_params global_params
         image camera ;;
  let create col row :=
    mkIntensityError col row dem geo global_params model_params image camera
                     nodata_val in
  ret (A, assemble create smoothness_weight grid_size (cols dem) (rows dem)).

(** ** Parts of computeReflectanceAndIntensity, named for the statements *)

(** Lines 411-420: the world position of grid point (col, row) at height
    [h]. *)
Definition xyz_at (geo : GeoReference) (col row : Z) (h : R) : Vector3 :=
  let lonlat := pixel_to_lonlat geo (mkV2 (IZR col) (IZR row)) in
  geodetic_to_cartesian geo (mkV3 (v2_0 lonlat) (v2_1 lonlat) h).

(** Lines 444-462 of computeReflectanceAndIntensity as a function of the
    three world points: normal, reflectance, projection, sample. *)
Definition shade_and_sample (base right top : Vector3)
    (model_params : ModelParams) (global_params : GlobalParams)
    (image : BilinearInterpT) (camera : CameraModel) : res (bool * R * R) :=
  match normalize (cross_prod (vsub right base) (vsub top base)) with
  | None => NotReal
  | Some n =>
    match ComputeReflectance (vneg n) base model_params global_params with
    | Val (reflectance, _) =>
      match point_to_pixel camera base with
      | None => Thrown
      | Some pix => Val (sample_pixel image pix reflectance 0)
      end
    | Thrown => Thrown
    | Exited => Exited
    | NotReal => NotReal
    end
  end.

(** The test that guards the no-data report: a sampled height is the
    no-data marker and nothing was reported yet. *)
Definition first_nodata (center_h right_h top_h nodata_val : R) (g : Globals)
    : bool :=
  (Reqb center_h nodata_val || Reqb right_h nodata_val || Reqb top_h nodata_val)
  && (g_errorCount g =? 0)%Z.

(** Nothing was reported yet, or the one line was and the counter is 1. *)
Definition at_most_one_report (g : Globals) : Prop :=
  g = g_initial \/ g = report_nodata g_initial.

(** ** Notions of the design document, for comparison with the code *)

(** The cubic limb-darkening term in the phase angle in degrees. *)
Definition limb_darkening (deg_alpha : R) : R :=
  1 + (-0.019) * deg_alpha + 0.000242 * deg_alpha ^ 2
  + (-0.00000146) * deg_alpha ^ 3.

(** The Lunar-Lambertian value before the phase correction, from [mu0],
    the clamped [mu'] and the phase angle in radians. *)
Definition lunar_term (mu0 mu' alpha : R) : R :=
  let L := limb_darkening (alpha * 180 / PI) in
  2 * L * mu0 / (mu0 + mu') + (1 - L) * mu0.

Definition phase_factor (c1 c2 alpha : R) : R := exp (- c1 * alpha) + c2.

Definition clamp0 (x : R) : R := if Rle_dec x 0 then 0 else x.

(** The reflectance as the document words it: the product of the two
    factors, 0 when [mu0 + mu' = 0], a non-positive result clamped to 0. *)
Definition documented_lunar_reflectance (mu0 mu alpha c1 c2 : R) : R :=
  let mu' := Rmax mu 0 in
  if Req_dec_T (mu0 + mu') 0 then 0
  else clamp0 (lunar_term mu0 mu' alpha * phase_factor c1 c2 alpha).

(** The documented acceptance region of a projected pixel. *)
Definition in_documented_range (image : BilinearInterpT) (pix : Vector2) : Prop :=
  0 <= v2_0 pix <= IZR (image_cols image - 2)
  /\ 0 <= v2_1 pix <= IZR (image_rows image - 2).

(** The region the code accepts. *)
Definition in_sampled_range (image : BilinearInterpT) (pix : Vector2) : Prop :=
  0 <= v2_0 pix < IZR (image_cols image - 1)
  /\ 0 <= v2_1 pix < IZR (image_rows image - 1).

(** The outermost ring of an [ncols] x [nrows] grid. *)
Definition outer_ring (ncols nrows col row : Z) : Prop :=
  (0 <= col < ncols /\ 0 <= row < nrows
   /\ (col = 0 \/ row = 0 \/ col = ncols - 1 \/ row = nrows - 1))%Z.

(** A neighbourhood on the plane [a + sx * x + sy * y], x and y in -1..1. *)
Definition plane (a sx sy : R) : Neighborhood :=
  mkNb (a - sx + sy) (a + sy) (a + sx + sy)
       (a - sx)      a        (a + sx)
       (a - sx - sy) (a - sy) (a + sx - sy).

Definition Rsum (l : list R) : R := fold_right Rplus 0 l.

(** Mean and (population) standard deviation of a list of samples. *)
Definition mean_of (l : list R) : R :=
  match l with [] => 0 | _ => Rsum l / INR (List.length l) end.

Definition stdev_of (l : list R) : R :=
  match l with
  | [] => 0
  | _ => sqrt (Rsum (map (fun v => (v - mean_of l) ^ 2) l) / INR (List.length l))
  end.

(** The pixel values of an image in the order of the loops. *)
Definition pixel_values (I : ImageView) : list R :=
  map (fun cr => pixel I (fst cr) (snd cr)) (image_cells I).

(** The pixel values [compute_image_stats] does not skip. *)
Definition valid_values (is_valid : R -> bool) (I : ImageView) : list R :=
  filter is_valid (pixel_values I).

(** ** A small concrete run *)

(** A flat geo-reference: pixel (col, row) at height h is the point
    (col, row, h). *)
Definition geo_flat : GeoReference := mkGeo (fun p => p) (fun v => v).

(** A camera that maps the point (x, y, z) to the pixel (x + dx, y + dy). *)
Definition camera_shift (dx dy : R) : CameraModel :=
  mkCamera (fun v => Some (mkV2 (v3_0 v + dx) (v3_1 v + dy))).

Definition image_const (c r : Z) (v : R) : BilinearInterpT :=
  mkInterp c r (fun _ _ => v).

Definition dem_const (c r : Z) (h : R) : ImageView := mkImage c r (fun _ _ => h).

(** main's reflectance parameters (lines 762-764) and default no-data
    value (line 756). *)
Definition main_global_params : GlobalParams :=
  mkGlobalParams LUNAR_LAMBERT 1.383488 0.501149.

Definition main_nodata_val : R := -32768.

(** Sun and camera one unit along the normal (0, 0, -1) from the point
    (col, row, h). *)
Definition overhead (col row : Z) (h : R) : ModelParams :=
  mkModelParams (mkV3 (IZR col) (IZR row) (h - 1))
                (mkV3 (IZR col) (IZR row) (h - 1)).

(** ** handle_arguments *)

(** The four options main reads and the list of input images. *)
Record Options : Type := mkOptions {
  input_dem : string;
  out_prefix : string;
  input_images : list string;
  max_iterations : Z;
  smoothness_weight : R
}.

(** Lines 724-738: the tests on the parsed options, in order.  The result
    is the first line of the ArgumentErr thrown, or [None] when none is. *)
Definition handle_arguments (opt : Options) : option string :=
  if String.eqb (input_dem opt) EmptyString
  then Some "Missing input DEM."%string
  else if String.eqb (out_prefix opt) EmptyString
  then Some "Missing output prefix."%string
  else if (max_iterations opt <? 0)%Z
  then Some "The number of iterations must be non-negative."%string
  else match input_images opt with
       | [] => Some "Missing input images."%string
       | _ :: _ => None
       end.

(** ** ReadSunOrSpacecraftPosition *)

(** [records.find(key) != records.end()] on the map, kept as the list of
    its entries. *)
Definition has_key (key : string) (records : list (string * Vector3)) : bool :=
  existsb (fun kv => String.eqb key (fst kv)) records.

(** [records.find(key)]. *)
Fixpoint find_record (key : string) (records : list (string * Vector3))
    : option Vector3 :=
  match records with
  | [] => None
  | (k, v) :: rest => if String.eqb key k then Some v else find_record key rest
  end.

(** Lines 223-240: the loop over the lines [getline] delivers.  [parse] is
    the extraction [lh >> key >> val[0] >> val[1] >> val[2]], [None] when it
    fails. *)
Fixpoint read_records (parse : string -> option (string * Vector3))
    (lines : list string) (records : list (string * Vector3))
    : res (list (string * Vector3)) :=
  match lines with
  | [] => Val records
  | line :: rest =>
    if String.eqb line EmptyString then read_records parse rest records
    else
      match parse line with
      | None => Exited
      | Some (key, val) =>
        if has_key key records then Exited
        else read_records parse rest ((key, val) :: records)
      end
  end.

(** Lines 211-245.  [file] is [None] when the file cannot be opened;
    whatever [records] held before is cleared. *)
Definition ReadSunOrSpacecraftPosition
    (parse : string -> option (string * Vector3))
    (file : option (list string)) (records : list (string * Vector3))
    : res (list (string * Vector3)) :=
  let records := [] in
  match file with
  | None => Exited
  | Some lines => read_records parse lines records
  end.

(** The entries the non-blank lines of a file parse to, in file order. *)
Definition parsed_records (parse : string -> option (string * Vector3))
    (lines : list string) : list (string * Vector3) :=
  flat_map
    (fun line =>
       if String.eqb line EmptyString then []
       else match parse line with Some kv => [kv] | None => [] end)
    lines.

(** A line the loop gets past: blank, or one the extraction accepts. *)
Definition readable (parse : string -> option (string * Vector3))
    (line : string) : Prop :=
  line = EmptyString \/ exists kv, parse line = Some kv.

(** ** main: the grid size *)

Definition norm_2_V2 (v : Vector2) : R :=
  sqrt (v2_0 v * v2_0 v + v2_1 v * v2_1 v).

(** Lines 805-808; [pixel_to_point] is the geo-reference's map from a
    pixel to projected coordinates. *)
Definition main_grid_size (pixel_to_point : Vector2 -> Vector2)
    (ncols nrows : Z) : option R :=
  let ul := pixel_to_point (mkV2 0 0) in
  let lr := pixel_to_point (mkV2 (IZR (ncols - 1)) (IZR (nrows - 1))) in
  fdiv (norm_2_V2 (mkV2 (v2_0 ul - v2_0 lr) (v2_1 ul - v2_1 lr)))
       (norm_2_V2 (mkV2 (IZR (ncols - 1)) (IZR (nrows - 1)))).

(** ** Further notions used in the statements *)

(** [t * v]. *)
Definition vscale (t : R) (v : Vector3) : Vector3 :=
  mkV3 (t * v3_0 v) (t * v3_1 v) (t * v3_2 v).

(** The heights of two neighbourhoods added cell by cell. *)
Definition nb_add (a b : Neighborhood) : Neighborhood :=
  mkNb (tl a + tl b) (top a + top b) (tr a + tr b)
       (left a + left b) (center a + center b) (right a + right b)
       (bl a + bl b) (bottom a + bottom b) (br a + br b).

(** The no-data tests of lines 413-440 at the cell [cr] of the pass over
    the grid. *)
Definition nodata_at (dem : ImageView) (nodata_val : R) (g : Globals)
    (cr : Z * Z) : bool :=
  first_nodata (pixel dem (fst cr) (snd cr)) (pixel dem (fst cr + 1) (snd cr))
               (pixel dem (fst cr) (snd cr + 1)) nodata_val g.

(** A parameter block that is an address inside an [ncols] x [nrows] DEM,
    or the array A. *)
Definition block_in_grid (ncols nrows : Z) (b : ParameterBlock) : Prop :=
  match b with
  | Block_A => True
  | Block_dem col row => (0 <= col < ncols /\ 0 <= row < nrows)%Z
  end.

(** The two residual blocks main adds for the grid point (col, row). *)
Definition cell_blocks (create : Z -> Z -> IntensityError)
    (smoothness_weight grid_size : R) (cr : Z * Z)
    : list (CostFunction * list ParameterBlock) :=
  [ (Cost_IntensityError (create (fst cr) (snd cr)),
     Block_A :: neighborhood_blocks (fst cr) (snd cr));
    (Cost_SmoothnessError (mkSmoothnessError smoothness_weight grid_size),
     neighborhood_blocks (fst cr) (snd cr)) ].
(** * Properties *)

(** ** Comparisons *)

Lemma Rltb_true (a b : R) : Rltb a b = true <-> a < b.
Proof. unfold Rltb. destruct (Rlt_dec a b); split; intros; try easy. Qed.

Lemma Rltb_false (a b : R) : Rltb a b = false <-> b <= a.
Proof.
  unfold Rltb. destruct (Rlt_dec a b); split; intros; try easy; lra.
Qed.

Lemma Rleb_true (a b : R) : Rleb a b = true <-> a <= b.
Proof. unfold Rleb. destruct (Rle_dec a b); split; intros; try easy. Qed.

Lemma Rleb_false (a b : R) : Rleb a b = false <-> b < a.
Proof.
  unfold Rleb. destruct (Rle_dec a b); split; intros; try easy; lra.
Qed.

Lemma Reqb_true (a b : R) : Reqb a b = true <-> a = b.
Proof. unfold Reqb. destruct (Req_dec_T a b); split; intros; try easy. Qed.

Lemma Reqb_false (a b : R) : Reqb a b = false <-> a <> b.
Proof. unfold Reqb. destruct (Req_dec_T a b); split; intros; try easy. Qed.

Lemma Reqb_refl (a : R) : Reqb a a = true.
Proof. now apply Reqb_true. Qed.

Lemma fdiv_some (a b : R) : b <> 0 -> fdiv a b = Some (a / b).
Proof. intros H. unfold fdiv. now destruct (Req_dec_T b 0). Qed.

Lemma fdiv_none (a : R) : fdiv a 0 = None.
Proof. unfold fdiv. now destruct (Req_dec_T 0 0). Qed.

(** ** Vectors *)

Lemma dot_prod_nonneg (v : Vector3) : 0 <= dot_prod v v.
Proof. unfold dot_prod. nra. Qed.

Lemma norm_2_sqr (v : Vector3) : norm_2 v * norm_2 v = dot_prod v v.
Proof. unfold norm_2. apply sqrt_sqrt, dot_prod_nonneg. Qed.

Lemma norm_2_nonneg (v : Vector3) : 0 <= norm_2 v.
Proof. unfold norm_2. apply sqrt_pos. Qed.

Lemma normalize_some (v u : Vector3) :
  normalize v = Some u ->
  norm_2 v <> 0
  /\ u = mkV3 (v3_0 v / norm_2 v) (v3_1 v / norm_2 v) (v3_2 v / norm_2 v).
Proof.
  unfold normalize. destruct (Req_dec_T (norm_2 v) 0); [easy|].
  intros [= <-]. now split.
Qed.

(** A normalized vector has unit length. *)
Lemma normalize_unit (v u : Vector3) :
  normalize v = Some u -> dot_prod u u = 1.
Proof.
  intros H. apply normalize_some in H as [Hn ->].
  unfold dot_prod at 1. cbn [v3_0 v3_1 v3_2].
  pose proof (norm_2_sqr v) as Hs. unfold dot_prod in Hs.
  field_simplify_eq; [|exact Hn]. nra.
Qed.

(** A unit vector is its own normalization. *)
Lemma normalize_of_unit (v : Vector3) : dot_prod v v = 1 -> normalize v = Some v.
Proof.
  intros H. unfold normalize, norm_2. rewrite H, sqrt_1.
  destruct (Req_dec_T 1 0) as [E|_]; [lra|].
  destruct v as [a b c]. cbn. f_equal. f_equal; lra.
Qed.

Lemma dot_prod_vneg (u : Vector3) : dot_prod (vneg u) (vneg u) = dot_prod u u.
Proof. unfold dot_prod, vneg. cbn. ring. Qed.

(** ** The reflectance models *)

Lemma lunar_exits (sunPos viewPos xyz normal : Vector3) (c1 c2 : R) :
  1.0e-4 < Rabs (dot_prod normal normal - 1) ->
  computeLunarLambertianReflectanceFromNormal sunPos viewPos xyz normal c1 c2
  = Exited.
Proof.
  intros H. unfold computeLunarLambertianReflectanceFromNormal, Rgtb.
  replace (dot_prod normal normal - 1.0) with (dot_prod normal normal - 1) by lra.
  apply Rltb_true in H. now rewrite H.
Qed.

Lemma lunar_passes_test (sunPos viewPos xyz normal : Vector3) (c1 c2 : R) :
  Rabs (dot_prod normal normal - 1) <= 1.0e-4 ->
  computeLunarLambertianReflectanceFromNormal sunPos viewPos xyz normal c1 c2
  <> Exited.
Proof.
  intros H. unfold computeLunarLambertianReflectanceFromNormal, Rgtb.
  replace (dot_prod normal normal - 1.0) with (dot_prod normal normal - 1) by lra.
  apply Rltb_false in H. rewrite H.
  destruct (normalize (vsub sunPos xyz)); [|easy].
  destruct (Rltb _ 0.3); [easy|].
  destruct (normalize (vsub viewPos xyz)); [|easy].
  destruct (Rltb _ 0.0); [easy|].
  destruct (Reqb _ 0); [easy|].
  destruct (Rleb _ 0); easy.
Qed.

Lemma lambert_never_exits (sunPos xyz normal : Vector3) :
  computeLambertianReflectanceFromNormal sunPos xyz normal <> Exited.
Proof.
  unfold computeLambertianReflectanceFromNormal.
  destruct (normalize (vsub sunPos xyz)); easy.
Qed.

(** A magnitude off 1 by more than 1e-4 puts the squared magnitude off 1 by
    more than 1e-4 too. *)
Lemma magnitude_off_squared_off (v : Vector3) :
  1.0e-4 < Rabs (norm_2 v - 1) -> 1.0e-4 < Rabs (dot_prod v v - 1).
Proof.
  intros H. rewrite <- norm_2_sqr.
  pose proof (norm_2_nonneg v) as Hn.
  set (m := norm_2 v) in *.
  unfold Rabs in *.
  destruct (Rcase_abs (m - 1)); destruct (Rcase_abs (m * m - 1)); nra.
Qed.

Ltac vec_eq :=
  unfold vsub, vneg, cross_prod; cbn [v3_0 v3_1 v3_2]; f_equal; lra.

Lemma clamp_mu (mu : R) : (if Rltb mu 0.0 then 0.0 else mu) = Rmax mu 0.
Proof.
  unfold Rltb, Rmax.
  destruct (Rlt_dec mu 0.0); destruct (Rle_dec mu 0); lra.
Qed.

Lemma limb_darkening_code (d : R) :
  1.0 + -0.019 * d + 0.000242 * d * d + -0.00000146 * d * d * d
  = limb_darkening d.
Proof. unfold limb_darkening. nra. Qed.

Lemma lunar_value (sunPos viewPos xyz normal : Vector3) (c1 c2 : R)
    (sunDirection viewDirection : Vector3) :
  Rabs (dot_prod normal normal - 1) <= 1.0e-4 ->
  normalize (vsub sunPos xyz) = Some sunDirection ->
  normalize (vsub viewPos xyz) = Some viewDirection ->
  0.3 <= dot_prod sunDirection normal ->
  let mu0 := dot_prod sunDirection normal in
  let mu' := Rmax (dot_prod viewDirection normal) 0 in
  let alpha := acos (dot_prod sunDirection viewDirection) in
  let X := lunar_term mu0 mu' alpha in
  computeLunarLambertianReflectanceFromNormal sunPos viewPos xyz normal c1 c2
  = Val ((if Rle_dec X 0 then 0 else X * phase_factor c1 c2 alpha), Some alpha).
Proof.
  intros Hn Hs Hv Hmu mu0 mu' alpha X.
  unfold computeLunarLambertianReflectanceFromNormal, Rgtb.
  replace (dot_prod normal normal - 1.0) with (dot_prod normal normal - 1) by lra.
  apply Rltb_false in Hn. rewrite Hn, Hs, Hv.
  fold mu0. rewrite clamp_mu. fold mu'. fold alpha.
  rewrite limb_darkening_code.
  replace (alpha * 180.0 / PI) with (alpha * 180 / PI) by (f_equal; lra).
  assert (Hm' : 0 <= mu') by (unfold mu'; apply Rmax_r).
  assert (Hmu0 : 0.3 <= mu0) by exact Hmu.
  replace (Rltb mu0 0.3) with false by (symmetry; apply Rltb_false; lra).
  replace (Rltb mu0 0.0) with false by (symmetry; apply Rltb_false; lra).
  replace (Reqb (mu0 + mu') 0) with false by (symmetry; apply Reqb_false; lra).
  fold (lunar_term mu0 mu' alpha). fold X.
  unfold Rleb, phase_factor.
  destruct (Rle_dec X 0); [|reflexivity].
  f_equal. f_equal. lra.
Qed.

Lemma lunar_term_overhead : lunar_term 1 1 0 = 1.
Proof.
  unfold lunar_term, limb_darkening.
  replace (0 * 180 / PI) with 0 by (unfold Rdiv; ring).
  field.
Qed.

(** Sun and viewer both one unit along the normal: phase angle 0, value
    [1 + c2]. *)
Lemma lunar_overhead (sunPos viewPos xyz n : Vector3) (c1 c2 : R) :
  dot_prod n n = 1 ->
  normalize (vsub sunPos xyz) = Some n ->
  normalize (vsub viewPos xyz) = Some n ->
  computeLunarLambertianReflectanceFromNormal sunPos viewPos xyz n c1 c2
  = Val (1 + c2, Some 0).
Proof.
  intros Hn Hs Hv.
  rewrite (lunar_value sunPos viewPos xyz n c1 c2 n n); try assumption.
  - rewrite Hn, acos_1.
    assert (Hmax : Rmax 1 0 = 1) by (apply Rmax_left; lra).
    rewrite Hmax.
    rewrite lunar_term_overhead. unfold phase_factor.
    replace (- c1 * 0) with 0 by ring. rewrite exp_0.
    destruct (Rle_dec 1 0); [lra|]. f_equal. f_equal. lra.
  - rewrite Hn. replace (1 - 1) with 0 by lra. rewrite Rabs_R0. lra.
  - rewrite Hn. lra.
Qed.

(** C2 (as amended): for a unit normal and [mu0 >= 0.3] the value is the
    Lunar-Lambertian term times the phase factor when the term is positive
    and 0 when the term is not positive; [mu0 + mu'] is never 0 there.  The
    clamp is decided on the term, before the phase factor is applied: where
    the phase factor is not negative this is the documented clamp of the
    product. *)
Theorem C2_lunar_lambert_value
    (sunPos viewPos xyz normal : Vector3) (c1 c2 : R)
    (sunDirection viewDirection : Vector3) :
  dot_prod normal normal = 1 ->
  normalize (vsub sunPos xyz) = Some sunDirection ->
  normalize (vsub viewPos xyz) = Some viewDirection ->
  0.3 <= dot_prod sunDirection normal ->
  let mu0 := dot_prod sunDirection normal in
  let mu := dot_prod viewDirection normal in
  let mu' := Rmax mu 0 in
  let alpha := acos (dot_prod sunDirection viewDirection) in
  let X := lunar_term mu0 mu' alpha in
  mu0 + mu' <> 0
  /\ computeLunarLambertianReflectanceFromNormal sunPos viewPos xyz normal c1 c2
     = Val ((if Rle_dec X 0 then 0 else X * phase_factor c1 c2 alpha), Some alpha)
  /\ (0 <= phase_factor c1 c2 alpha ->
      computeLunarLambertianReflectanceFromNormal sunPos viewPos xyz normal c1 c2
      = Val (documented_lunar_reflectance mu0 mu alpha c1 c2, Some alpha)).
Proof.
  intros Hn Hs Hv Hmu mu0 mu mu' alpha X.
  assert (Hm' : 0 <= mu') by (unfold mu'; apply Rmax_r).
  assert (Hmu0 : 0.3 <= mu0) by exact Hmu.
  assert (Hval := lunar_value sunPos viewPos xyz normal c1 c2
                    sunDirection viewDirection).
  cbv zeta in Hval. fold mu0 mu mu' alpha X in Hval.
  rewrite Hval; try assumption.
  2: { rewrite Hn. replace (1 - 1) with 0 by lra. rewrite Rabs_R0. lra. }
  split; [lra|]. split; [reflexivity|].
  intros Hp. f_equal. f_equal.
  unfold documented_lunar_reflectance. fold mu' X.
  destruct (Req_dec_T (mu0 + mu') 0); [lra|].
  unfold clamp0.
  destruct (Rle_dec X 0); destruct (Rle_dec (X * phase_factor c1 c2 alpha) 0);
    nra.
Qed.

Lemma C2_witness :
  let n := mkV3 0 0 1 in
  let o := mkV3 0 0 0 in
  dot_prod n n = 1
  /\ normalize (vsub n o) = Some n
  /\ 0.3 <= dot_prod n n
  /\ computeLunarLambertianReflectanceFromNormal n n o n 1.383488 0.501149
     = Val (documented_lunar_reflectance (dot_prod n n) (dot_prod n n)
              (acos (dot_prod n n)) 1.383488 0.501149,
            Some (acos (dot_prod n n))).
Proof.
  intros n o.
  assert (Hn : dot_prod n n = 1) by (unfold dot_prod, n; cbn; lra).
  assert (Hs : normalize (vsub n o) = Some n).
  { replace (vsub n o) with n by (unfold n, o; vec_eq).
    now apply normalize_of_unit. }
  assert (Hmu : 0.3 <= dot_prod n n) by lra.
  repeat split; try assumption.
  apply (C2_lunar_lambert_value n n o n 1.383488 0.501149 n n Hn Hs Hs Hmu).
  unfold phase_factor.
  match goal with |- context [exp ?x] => pose proof (exp_pos x) end. lra.
Defined.

(** C2, as documented, fails where the phase factor is negative: with
    [c1 = 0] and [c2 = -2] a sun and viewer along the unit normal give the
    value -1, which the documented clamp would turn into 0. *)
Lemma C2_counterexample :
  let n := mkV3 0 0 1 in
  let o := mkV3 0 0 0 in
  dot_prod n n = 1
  /\ normalize (vsub n o) = Some n
  /\ 0.3 <= dot_prod n n
  /\ computeLunarLambertianReflectanceFromNormal n n o n 0 (-2)
     = Val (-1, Some 0)
  /\ documented_lunar_reflectance (dot_prod n n) (dot_prod n n)
       (acos (dot_prod n n)) 0 (-2) = 0.
Proof.
  intros n o.
  assert (Hn : dot_prod n n = 1) by (unfold dot_prod, n; cbn; lra).
  assert (Hs : normalize (vsub n o) = Some n).
  { replace (vsub n o) with n by (unfold n, o; vec_eq).
    now apply normalize_of_unit. }
  repeat split; try assumption; try lra.
  - rewrite (lunar_overhead n n o n 0 (-2) Hn Hs Hs). f_equal. f_equal. lra.
  - rewrite Hn, acos_1. unfold documented_lunar_reflectance.
    assert (Hmax : Rmax 1 0 = 1) by (apply Rmax_left; lra).
    rewrite Hmax.
    destruct (Req_dec_T (1 + 1) 0); [lra|].
    rewrite lunar_term_overhead. unfold phase_factor.
    replace (- 0 * 0) with 0 by ring. rewrite exp_0.
    unfold clamp0. destruct (Rle_dec (1 * (1 + -2)) 0); lra.
Qed.

(** With a normal that passes the unit-length test and [mu0 < 0.3] the
    function returns at line 293, before the viewer position and the phase
    coefficients are read. *)
Lemma lunar_low_sun (sunPos viewPos xyz normal : Vector3) (c1 c2 : R)
    (sunDirection : Vector3) :
  Rabs (dot_prod normal normal - 1) <= 1.0e-4 ->
  normalize (vsub sunPos xyz) = Some sunDirection ->
  dot_prod sunDirection normal < 0.3 ->
  computeLunarLambertianReflectanceFromNormal sunPos viewPos xyz normal c1 c2
  = Val (0, None).
Proof.
  intros Hn Hs Hmu.
  unfold computeLunarLambertianReflectanceFromNormal, Rgtb.
  replace (dot_prod normal normal - 1.0) with (dot_prod normal normal - 1) by lra.
  apply Rltb_false in Hn. rewrite Hn, Hs.
  apply Rltb_true in Hmu. rewrite Hmu.
  f_equal. f_equal. lra.
Qed.

(** A normal of unit length passes the test of line 278. *)
Lemma unit_normal_passes_test (normal : Vector3) :
  norm_2 normal = 1 -> Rabs (dot_prod normal normal - 1) <= 1.0e-4.
Proof.
  intros H. rewrite <- norm_2_sqr, H.
  replace (1 * 1 - 1) with 0 by lra. rewrite Rabs_R0. lra.
Qed.

(** C3: for a normal of unit length, as the reflectance contract requires
    (and, more generally, for every normal that passes the code's test on
    the squared length), when [mu0 = dot(normalize(sunPos - xyz), normal)]
    is below 0.3 the Lunar-Lambertian reflectance is exactly 0, whatever
    the viewer position and the phase coefficients; the phase angle is left
    unwritten. *)
Theorem C3_low_sun_gives_zero
    (sunPos viewPos xyz normal : Vector3) (c1 c2 : R) (sunDirection : Vector3) :
  norm_2 normal = 1 \/ Rabs (dot_prod normal normal - 1) <= 1.0e-4 ->
  normalize (vsub sunPos xyz) = Some sunDirection ->
  dot_prod sunDirection normal < 0.3 ->
  computeLunarLambertianReflectanceFromNormal sunPos viewPos xyz normal c1 c2
  = Val (0, None).
Proof.
  intros Hn Hs Hmu. apply lunar_low_sun with (sunDirection := sunDirection).
  - destruct Hn as [Hn|Hn]; [now apply unit_normal_passes_test|exact Hn].
  - exact Hs.
  - exact Hmu.
Qed.

Lemma C3_witness :
  let n := mkV3 0 0 1 in
  let sun := mkV3 1 0 0 in
  let o := mkV3 0 0 0 in
  norm_2 n = 1
  /\ normalize (vsub sun o) = Some sun
  /\ dot_prod sun n < 0.3
  /\ computeLunarLambertianReflectanceFromNormal sun n o n 1.383488 0.501149
     = Val (0, None).
Proof.
  intros n sun o.
  assert (Hn : norm_2 n = 1).
  { unfold norm_2. replace (dot_prod n n) with 1 by (unfold dot_prod, n; cbn; lra).
    apply sqrt_1. }
  assert (Hs : normalize (vsub sun o) = Some sun).
  { replace (vsub sun o) with sun by (unfold sun, o; vec_eq).
    apply normalize_of_unit. unfold dot_prod, sun; cbn; lra. }
  assert (Hmu : dot_prod sun n < 0.3) by (unfold dot_prod, sun, n; cbn; lra).
  repeat split; try assumption.
  exact (C3_low_sun_gives_zero sun n o n 1.383488 0.501149 sun
           (or_introl Hn) Hs Hmu).
Defined.

Lemma ComputeReflectance_lunar (normal xyz : Vector3)
    (mp : ModelParams) (gp : GlobalParams) :
  reflectanceType gp = LUNAR_LAMBERT ->
  ComputeReflectance normal xyz mp gp
  = computeLunarLambertianReflectanceFromNormal (sunPosition mp)
      (cameraPosition mp) xyz normal (phaseCoeffC1 gp) (phaseCoeffC2 gp).
Proof. intros H. unfold ComputeReflectance. now rewrite H. Qed.

Lemma ComputeReflectance_other (normal xyz : Vector3)
    (mp : ModelParams) (gp : GlobalParams) :
  reflectanceType gp <> LUNAR_LAMBERT ->
  ComputeReflectance normal xyz mp gp <> Exited.
Proof.
  intros H. unfold ComputeReflectance.
  destruct (Z.eqb_spec (reflectanceType gp) LUNAR_LAMBERT); [easy|].
  destruct (reflectanceType gp =? LAMBERT)%Z; [|easy].
  pose proof (lambert_never_exits (sunPosition mp) xyz normal).
  destruct (computeLambertianReflectanceFromNormal _ _ _); easy.
Qed.

(** C4 (as amended): the reflectance computation exits exactly when the
    model is Lunar-Lambertian and the squared magnitude [dot(normal, normal)]
    is off 1 by more than 1e-4.  So under that model every normal whose
    magnitude is off 1 by more than 1e-4 is fatal, and the fatal branch is
    unreachable when the squared magnitude is within 1e-4 of 1; the
    Lambertian and no-model variants never exit. *)
Theorem C4_unit_normal_test :
  (forall normal xyz mp gp,
     ComputeReflectance normal xyz mp gp = Exited
     <-> reflectanceType gp = LUNAR_LAMBERT
         /\ 1.0e-4 < Rabs (dot_prod normal normal - 1))
  /\ (forall normal xyz mp gp,
       reflectanceType gp = LUNAR_LAMBERT ->
       1.0e-4 < Rabs (norm_2 normal - 1) ->
       ComputeReflectance normal xyz mp gp = Exited)
  /\ (forall sunPos xyz normal,
       computeLambertianReflectanceFromNormal sunPos xyz normal <> Exited).
Proof.
  assert (Hiff : forall normal xyz mp gp,
     ComputeReflectance normal xyz mp gp = Exited
     <-> reflectanceType gp = LUNAR_LAMBERT
         /\ 1.0e-4 < Rabs (dot_prod normal normal - 1)).
  { intros normal xyz mp gp. split.
    - intros H.
      destruct (Z.eq_dec (reflectanceType gp) LUNAR_LAMBERT) as [E|E].
      + split; [exact E|]. rewrite ComputeReflectance_lunar in H by exact E.
        destruct (Rlt_dec 1.0e-4 (Rabs (dot_prod normal normal - 1)));
          [assumption|].
        exfalso. revert H. apply lunar_passes_test. lra.
      + now apply ComputeReflectance_other in H.
    - intros [E H]. rewrite ComputeReflectance_lunar by exact E.
      now apply lunar_exits. }
  split; [exact Hiff|]. split.
  - intros normal xyz mp gp E H. apply Hiff. split; [exact E|].
    now apply magnitude_off_squared_off.
  - exact lambert_never_exits.
Qed.

Lemma C4_witness :
  let n := mkV3 0 0 2 in
  let o := mkV3 0 0 0 in
  let mp := mkModelParams (mkV3 0 0 1) (mkV3 0 0 1) in
  reflectanceType main_global_params = LUNAR_LAMBERT
  /\ 1.0e-4 < Rabs (norm_2 n - 1)
  /\ ComputeReflectance n o mp main_global_params = Exited.
Proof.
  intros n o mp.
  assert (E : reflectanceType main_global_params = LUNAR_LAMBERT) by reflexivity.
  assert (Hm : 1.0e-4 < Rabs (norm_2 n - 1)).
  { unfold norm_2.
    replace (dot_prod n n) with (2 * 2) by (unfold dot_prod, n; cbn; lra).
    rewrite sqrt_square by lra. rewrite Rabs_pos_eq; lra. }
  repeat split; try assumption.
  exact (proj1 (proj2 C4_unit_normal_test) n o mp main_global_params E Hm).
Defined.

(** C4, as documented, fails both ways.  The Lambertian variant accepts a
    normal of magnitude 2 and returns a value.  The Lunar-Lambertian variant
    exits on a normal of magnitude 1.00008, which is within 1e-4 of 1: its
    squared magnitude is off by more than 1e-4. *)
Lemma C4_counterexample :
  let o := mkV3 0 0 0 in
  let mp := mkModelParams (mkV3 0 0 1) (mkV3 0 0 1) in
  (norm_2 (mkV3 0 0 2) = 2
   /\ ComputeReflectance (mkV3 0 0 2) o mp
        (mkGlobalParams LAMBERT 1.383488 0.501149) = Val (2, None))
  /\ (norm_2 (mkV3 1.00008 0 0) = 1.00008
      /\ Rabs (1.00008 - 1) <= 1.0e-4
      /\ ComputeReflectance (mkV3 1.00008 0 0) o mp main_global_params = Exited).
Proof.
  intros o mp. split; [split|split; [|split]].
  - unfold norm_2.
    replace (dot_prod (mkV3 0 0 2) (mkV3 0 0 2)) with (2 * 2)
      by (unfold dot_prod; cbn; lra).
    apply sqrt_square. lra.
  - unfold ComputeReflectance. cbn [reflectanceType].
    change (LAMBERT =? LUNAR_LAMBERT)%Z with false.
    change (LAMBERT =? LAMBERT)%Z with true. cbv iota.
    unfold computeLambertianReflectanceFromNormal. cbn [sunPosition mp].
    replace (vsub (mkV3 0 0 1) o) with (mkV3 0 0 1) by (unfold o; vec_eq).
    rewrite normalize_of_unit by (unfold dot_prod; cbn; lra).
    cbn [v3_0 v3_1 v3_2]. f_equal. f_equal. lra.
  - unfold norm_2.
    replace (dot_prod (mkV3 1.00008 0 0) (mkV3 1.00008 0 0))
      with (1.00008 * 1.00008) by (unfold dot_prod; cbn; lra).
    apply sqrt_square. lra.
  - rewrite Rabs_pos_eq; lra.
  - rewrite ComputeReflectance_lunar by reflexivity. apply lunar_exits.
    replace (dot_prod (mkV3 1.00008 0 0) (mkV3 1.00008 0 0) - 1)
      with (1.00008 * 1.00008 - 1) by (unfold dot_prod; cbn; lra).
    rewrite Rabs_pos_eq; lra.
Qed.

(** ** The range test on the projected pixel *)

Lemma sample_pixel_in_range (image : BilinearInterpT) (pix : Vector2)
    (reflectance intensity : R) :
  in_sampled_range image pix ->
  sample_pixel image pix reflectance intensity
  = (true, reflectance, interp image (v2_0 pix) (v2_1 pix)).
Proof.
  intros [[H0 H1] [H2 H3]]. unfold sample_pixel, Rgeb.
  replace (Rltb (v2_0 pix) 0) with false by (symmetry; apply Rltb_false; lra).
  replace (Rleb (IZR (image_cols image - 1)) (v2_0 pix)) with false
    by (symmetry; apply Rleb_false; lra).
  replace (Rltb (v2_1 pix) 0) with false by (symmetry; apply Rltb_false; lra).
  replace (Rleb (IZR (image_rows image - 1)) (v2_1 pix)) with false
    by (symmetry; apply Rleb_false; lra).
  reflexivity.
Qed.

Lemma sample_pixel_out_of_range (image : BilinearInterpT) (pix : Vector2)
    (reflectance intensity : R) :
  ~ in_sampled_range image pix ->
  sample_pixel image pix reflectance intensity
  = (false, reflectance, intensity).
Proof.
  intros H. unfold sample_pixel, Rgeb.
  destruct (Rltb (v2_0 pix) 0) eqn:E0; [reflexivity|].
  destruct (Rleb (IZR (image_cols image - 1)) (v2_0 pix)) eqn:E1; [reflexivity|].
  destruct (Rltb (v2_1 pix) 0) eqn:E2; [reflexivity|].
  destruct (Rleb (IZR (image_rows image - 1)) (v2_1 pix)) eqn:E3; [reflexivity|].
  exfalso. apply H.
  apply Rltb_false in E0, E2. apply Rleb_false in E1, E3.
  unfold in_sampled_range. lra.
Qed.

Lemma in_sampled_range_dec (image : BilinearInterpT) (pix : Vector2) :
  {in_sampled_range image pix} + {~ in_sampled_range image pix}.
Proof.
  unfold in_sampled_range.
  destruct (Rle_dec 0 (v2_0 pix)); [|right; lra].
  destruct (Rlt_dec (v2_0 pix) (IZR (image_cols image - 1))); [|right; lra].
  destruct (Rle_dec 0 (v2_1 pix)); [|right; lra].
  destruct (Rlt_dec (v2_1 pix) (IZR (image_rows image - 1))); [|right; lra].
  left. lra.
Qed.

(** ** Images *)

Lemma pixel_set_pixel_same (I : ImageView) (col row : Z) (v : R) :
  pixel (set_pixel I col row v) col row = v.
Proof. cbn. now rewrite !Z.eqb_refl. Qed.

Lemma pixel_set_pixel_other (I : ImageView) (col row c r : Z) (v : R) :
  (c, r) <> (col, row) ->
  pixel (set_pixel I col row v) c r = pixel I c r.
Proof.
  intros H. cbn.
  destruct (Z.eqb_spec c col); destruct (Z.eqb_spec r row); cbn;
    try reflexivity.
  subst. now elim H.
Qed.

Lemma cell_eq_dec (a b : Z * Z) : {a = b} + {a <> b}.
Proof. decide equality; apply Z.eq_dec. Qed.

(** ** computeReflectanceAndIntensity by cases *)

Section Sampling.

Variables (dem : ImageView) (geo : GeoReference) (nodata_val : R).
Variables (mp : ModelParams) (gp : GlobalParams).
Variables (image : BilinearInterpT) (camera : CameraModel).

Lemma cell_unfold (center_h right_h top_h : R) (col row : Z) (g : Globals) :
  computeReflectanceAndIntensity center_h right_h top_h col row dem geo
    nodata_val mp gp image camera g
  = if ((col >=? cols dem - 1) || (row >=? rows dem - 1))%Z
    then (Val (false, 0, 0), g)
    else if first_nodata center_h right_h top_h nodata_val g
    then (Val (false, 0, 0), report_nodata g)
    else (shade_and_sample (xyz_at geo col row center_h)
            (xyz_at geo (col + 1) row right_h) (xyz_at geo col (row + 1) top_h)
            mp gp image camera, g).
Proof.
  unfold computeReflectanceAndIntensity, first_nodata, shade_and_sample, xyz_at.
  destruct ((col >=? cols dem - 1) || (row >=? rows dem - 1))%Z; [reflexivity|].
  destruct (g_errorCount g =? 0)%Z.
  - rewrite !andb_true_r.
    destruct (Reqb center_h nodata_val); [reflexivity|].
    destruct (Reqb right_h nodata_val); [reflexivity|].
    destruct (Reqb top_h nodata_val); [reflexivity|].
    cbn [orb].
    destruct (normalize _); [|reflexivity].
    destruct (ComputeReflectance _ _ _ _) as [[r a]| | |]; try reflexivity.
    destruct (point_to_pixel _ _); reflexivity.
  - rewrite !andb_false_r.
    destruct (normalize _); [|reflexivity].
    destruct (ComputeReflectance _ _ _ _) as [[r a]| | |]; try reflexivity.
    destruct (point_to_pixel _ _); reflexivity.
Qed.

(** The normal handed to ComputeReflectance is of unit length, so the
    unit-normal test never fires from here. *)
Lemma shade_and_sample_never_exits (base right top : Vector3) :
  shade_and_sample base right top mp gp image camera <> Exited.
Proof.
  unfold shade_and_sample.
  destruct (normalize _) as [n|] eqn:Hn; [|easy].
  assert (Hu : dot_prod (vneg n) (vneg n) = 1)
    by (rewrite dot_prod_vneg; eapply normalize_unit; eassumption).
  assert (Hne : ComputeReflectance (vneg n) base mp gp <> Exited).
  { destruct (Z.eq_dec (reflectanceType gp) LUNAR_LAMBERT) as [E|E].
    - rewrite ComputeReflectance_lunar by exact E.
      apply lunar_passes_test. rewrite Hu.
      replace (1 - 1) with 0 by lra. rewrite Rabs_R0. lra.
    - now apply ComputeReflectance_other. }
  destruct (ComputeReflectance _ _ _ _) as [[r a]| | |]; try easy.
  destruct (point_to_pixel _ _); easy.
Qed.

Lemma cell_never_exits (center_h right_h top_h : R) (col row : Z)
    (g : Globals) :
  fst (computeReflectanceAndIntensity center_h right_h top_h col row dem geo
         nodata_val mp gp image camera g) <> Exited.
Proof.
  rewrite cell_unfold.
  destruct (_ || _)%Z; [easy|].
  destruct (first_nodata _ _ _ _ _); [easy|].
  apply shade_and_sample_never_exits.
Qed.


(** *** The error counter *)

(** What a call does to the globals: the report fires when the grid point
    is inside the grid and the no-data test holds, and nothing else touches
    them. *)
Lemma cell_globals (center_h right_h top_h : R) (col row : Z)
    (g : Globals) :
  snd (computeReflectanceAndIntensity center_h right_h top_h col row dem geo
         nodata_val mp gp image camera g)
  = if negb ((col >=? cols dem - 1) || (row >=? rows dem - 1))%Z
       && first_nodata center_h right_h top_h nodata_val g
    then report_nodata g else g.
Proof.
  rewrite cell_unfold.
  destruct (_ || _)%Z; [reflexivity|].
  destruct (first_nodata _ _ _ _ _); reflexivity.
Qed.

(** The counter is incremented at most once: a call keeps
    [at_most_one_report]. *)
Lemma cell_at_most_one_report (center_h right_h top_h : R) (col row : Z)
    (g : Globals) :
  at_most_one_report g ->
  at_most_one_report
    (snd (computeReflectanceAndIntensity center_h right_h top_h col row dem geo
            nodata_val mp gp image camera g)).
Proof.
  intros Hg. rewrite cell_globals.
  destruct (negb _); cbn [andb]; [|exact Hg].
  unfold first_nodata. destruct Hg as [->| ->].
  - destruct (_ && _); [now right|now left].
  - cbn [report_nodata g_initial g_errorCount].
    change (0 + 1 =? 0)%Z with false. rewrite andb_false_r. now right.
Qed.

(** *** The pass over the whole grid *)

(** One turn of the loop body that returns normally: the call returned,
    and its two outputs are the new pixels, whatever the flag. *)
Lemma grid_body_val (col row : Z) (R0 I0 R1 I1 : ImageView) (g g1 : Globals) :
  grid_body dem geo nodata_val mp gp image camera (col, row) (R0, I0) g
  = (Val (R1, I1), g1) ->
  exists ok refl inten,
    computeReflectanceAndIntensity (pixel dem col row) (pixel dem (col + 1) row)
      (pixel dem col (row + 1)) col row dem geo nodata_val mp gp image camera g
    = (Val (ok, refl, inten), g1)
    /\ R1 = set_pixel R0 col row refl /\ I1 = set_pixel I0 col row inten.
Proof.
  unfold grid_body, bind, ret.
  destruct (computeReflectanceAndIntensity _ _ _ _ _ _ _ _ _ _ _ _ g)
    as [[[[ok refl] inten]| | |] g2]; try discriminate.
  intros [= <- <- <-]. now exists ok, refl, inten.
Qed.

Lemma grid_loop_stored (l : list (Z * Z)) :
  forall (R0 I0 : ImageView) (g : Globals) (Rf If : ImageView) (g' : Globals),
  for_each (grid_body dem geo nodata_val mp gp image camera) l (R0, I0) g
  = (Val (Rf, If), g') ->
  (forall col row, In (col, row) l ->
     exists g0 g1 ok,
       computeReflectanceAndIntensity (pixel dem col row)
         (pixel dem (col + 1) row) (pixel dem col (row + 1)) col row dem geo
         nodata_val mp gp image camera g0
       = (Val (ok, pixel Rf col row, pixel If col row), g1))
  /\ (forall col row, ~ In (col, row) l ->
        pixel Rf col row = pixel R0 col row
        /\ pixel If col row = pixel I0 col row)
  /\ cols Rf = cols R0 /\ rows Rf = rows R0
  /\ cols If = cols I0 /\ rows If = rows I0.
Proof.
  induction l as [|[c r] l IH]; intros R0 I0 g Rf If g' H.
  - cbn in H. injection H as <- <- <-. repeat split; easy.
  - cbn [for_each] in H. unfold bind at 1 in H.
    destruct (grid_body _ _ _ _ _ _ _ (c, r) (R0, I0) g)
      as [[[R1 I1]| | |] g1] eqn:Hb; try discriminate.
    apply grid_body_val in Hb as (ok & refl & inten & Hcall & -> & ->).
    destruct (IH _ _ _ _ _ _ H) as (Hin & Hout & Hc & Hr & Hc' & Hr').
    split; [|split].
    + intros col row [[= <- <-]|Hl]; [|now apply Hin].
      destruct (in_dec cell_eq_dec (c, r) l) as [Hl|Hl].
      * now apply Hin.
      * destruct (Hout c r Hl) as [-> ->].
        rewrite !pixel_set_pixel_same. now exists g, g1, ok.
    + intros col row Hn.
      destruct (Hout col row) as [-> ->]; [intros Hl; apply Hn; now right|].
      rewrite !pixel_set_pixel_other; [easy| |];
        intros [= -> ->]; apply Hn; now left.
    + cbn in *. easy.
Qed.

(** The pass over the grid keeps [at_most_one_report] too, however it
    ends. *)
Lemma grid_at_most_one_report (g : Globals) :
  at_most_one_report g ->
  at_most_one_report
    (snd (computeReflectanceAndIntensity_grid dem geo nodata_val mp gp image
            camera g)).
Proof.
  unfold computeReflectanceAndIntensity_grid.
  generalize (set_size (cols dem) (rows dem), set_size (cols dem) (rows dem)).
  generalize (grid_cells dem). intros l. revert g.
  induction l as [|[c r] l IH]; intros g out Hg; [exact Hg|].
  cbn [for_each]. unfold bind at 1.
  assert (Hb : at_most_one_report
                 (snd (grid_body dem geo nodata_val mp gp image camera (c, r)
                         out g))).
  { destruct out as [R0 I0]. unfold grid_body, bind, ret.
    pose proof (cell_at_most_one_report (pixel dem c r) (pixel dem (c + 1) r)
                  (pixel dem c (r + 1)) c r g Hg) as H.
    destruct (computeReflectanceAndIntensity _ _ _ _ _ _ _ _ _ _ _ _ g)
      as [[[[ok refl] inten]| | |] g1]; exact H. }
  destruct (grid_body _ _ _ _ _ _ _ (c, r) out g) as [[s'| | |] g1];
    cbn [snd] in Hb; try exact Hb.
  now apply IH.
Qed.

End Sampling.

(** ** The flat scene *)

(** On the flat geo-reference with equal heights the cross product of the
    two tangents is (0, 0, 1). *)
Lemma flat_normal (col row : Z) (h : R) :
  normalize
    (cross_prod
       (vsub (xyz_at geo_flat (col + 1) row h) (xyz_at geo_flat col row h))
       (vsub (xyz_at geo_flat col (row + 1) h) (xyz_at geo_flat col row h)))
  = Some (mkV3 0 0 1).
Proof.
  unfold xyz_at, geo_flat. cbn [pixel_to_lonlat geodetic_to_cartesian v2_0 v2_1].
  rewrite !plus_IZR.
  replace (cross_prod _ _) with (mkV3 0 0 1) by vec_eq.
  apply normalize_of_unit. unfold dot_prod; cbn; lra.
Qed.

(** With the sun and the camera along the normal the Lunar-Lambertian
    reflectance is [1 + c2], at phase angle 0. *)
Lemma flat_reflectance (col row : Z) (h c1 c2 : R) :
  ComputeReflectance (vneg (mkV3 0 0 1)) (xyz_at geo_flat col row h)
    (overhead col row h) (mkGlobalParams LUNAR_LAMBERT c1 c2)
  = Val (1 + c2, Some 0).
Proof.
  rewrite ComputeReflectance_lunar by reflexivity.
  unfold xyz_at, geo_flat.
  cbn [pixel_to_lonlat geodetic_to_cartesian v2_0 v2_1 sunPosition
       cameraPosition overhead phaseCoeffC1 phaseCoeffC2].
  set (base := mkV3 (IZR col) (IZR row) h).
  apply lunar_overhead.
  - unfold dot_prod, vneg; cbn; lra.
  - replace (vsub _ base) with (vneg (mkV3 0 0 1)) by (unfold base; vec_eq).
    apply normalize_of_unit. unfold dot_prod, vneg; cbn; lra.
  - replace (vsub _ base) with (vneg (mkV3 0 0 1)) by (unfold base; vec_eq).
    apply normalize_of_unit. unfold dot_prod, vneg; cbn; lra.
Qed.

Lemma flat_shade_and_sample (col row : Z) (h c1 c2 : R)
    (image : BilinearInterpT) (camera : CameraModel) (pix : Vector2) :
  point_to_pixel camera (xyz_at geo_flat col row h) = Some pix ->
  shade_and_sample (xyz_at geo_flat col row h) (xyz_at geo_flat (col + 1) row h)
    (xyz_at geo_flat col (row + 1) h) (overhead col row h)
    (mkGlobalParams LUNAR_LAMBERT c1 c2) image camera
  = Val (sample_pixel image pix (1 + c2) 0).
Proof.
  intros Hpix. unfold shade_and_sample.
  now rewrite flat_normal, flat_reflectance, Hpix.
Qed.

(** The same for a whole call at a grid point inside the grid, when the
    no-data report does not fire. *)
Lemma flat_cell_at (col row : Z) (dem : ImageView) (h nodata_val c1 c2 dx dy : R)
    (image : BilinearInterpT) (g : Globals) :
  (col < cols dem - 1)%Z -> (row < rows dem - 1)%Z ->
  first_nodata h h h nodata_val g = false ->
  computeReflectanceAndIntensity h h h col row dem geo_flat nodata_val
    (overhead col row h) (mkGlobalParams LUNAR_LAMBERT c1 c2)
    image (camera_shift dx dy) g
  = (Val (sample_pixel image (mkV2 (IZR col + dx) (IZR row + dy)) (1 + c2) 0),
     g).
Proof.
  intros Hc Hr Hf. rewrite cell_unfold, Hf.
  replace ((col >=? cols dem - 1) || (row >=? rows dem - 1))%Z with false
    by (symmetry; apply orb_false_iff; split; rewrite Z.geb_leb;
        apply Z.leb_gt; lia).
  rewrite (flat_shade_and_sample col row h c1 c2 _ _
             (mkV2 (IZR col + dx) (IZR row + dy))); reflexivity.
Qed.

Lemma flat_cell (h nodata_val c1 c2 dx dy v : R) (g : Globals) :
  first_nodata h h h nodata_val g = false ->
  computeReflectanceAndIntensity h h h 1 1 (dem_const 3 3 h) geo_flat nodata_val
    (overhead 1 1 h) (mkGlobalParams LUNAR_LAMBERT c1 c2)
    (image_const 3 3 v) (camera_shift dx dy) g
  = (Val (sample_pixel (image_const 3 3 v) (mkV2 (1 + dx) (1 + dy)) (1 + c2) 0),
     g).
Proof. intros Hf. now apply flat_cell_at. Qed.

(** A valid height is not taken for the no-data marker. *)
Lemma first_nodata_valid (g : Globals) :
  first_nodata 0 0 0 main_nodata_val g = false.
Proof.
  unfold first_nodata, main_nodata_val.
  replace (Reqb 0 (-32768)) with false by (symmetry; apply Reqb_false; lra).
  reflexivity.
Qed.

(** The two calls of the flat scene used below, at (1, 1) of a flat 3 x 3
    DEM under a 3 x 3 image of intensity 0.5: the camera projects onto the
    grid point, or 10 pixels to its right. *)
Lemma flat_cell_in_range (h : R) (g : Globals) :
  first_nodata h h h main_nodata_val g = false ->
  computeReflectanceAndIntensity h h h 1 1 (dem_const 3 3 h) geo_flat
    main_nodata_val (overhead 1 1 h) main_global_params (image_const 3 3 0.5)
    (camera_shift 0 0) g
  = (Val (true, 1.501149, 0.5), g).
Proof.
  intros Hf. unfold main_global_params. rewrite flat_cell by exact Hf.
  rewrite sample_pixel_in_range.
  - cbn [image_const interp].
    replace (1 + 0.501149) with 1.501149 by lra. reflexivity.
  - unfold in_sampled_range. cbn. lra.
Qed.


(** ** The no-data report *)

(** C1 (the code diverges): on a 3 x 3 DEM whose heights are all the
    no-data marker, the first sample at (1, 1) fails and reports once; the
    same sample taken again, after the report, does not fail: it returns
    success with a reflectance and an intensity computed from the no-data
    heights. *)
Lemma C1_later_nodata_sample_succeeds :
  let nd := main_nodata_val in
  let call :=
    computeReflectanceAndIntensity nd nd nd 1 1 (dem_const 3 3 nd) geo_flat nd
      (overhead 1 1 nd) main_global_params (image_const 3 3 0.5)
      (camera_shift 0 0) in
  call g_initial = (Val (false, 0, 0), report_nodata g_initial)
  /\ g_errorCount (report_nodata g_initial) = 1%Z
  /\ call (report_nodata g_initial)
     = (Val (true, 1.501149, 0.5), report_nodata g_initial).
Proof.
  intros nd call. split; [|split].
  - unfold call. rewrite cell_unfold. cbn [dem_const cols rows].
    change ((1 >=? 3 - 1) || (1 >=? 3 - 1))%Z with false. cbv iota.
    unfold first_nodata. rewrite Reqb_refl. reflexivity.
  - reflexivity.
  - unfold call. apply flat_cell_in_range.
    unfold first_nodata. cbn. apply andb_false_r.
Qed.

(** ** The intensity residual *)

(** The functor passes on what the sample returns: the residual
    [intensity - A0 * reflectance - A1] with the flag true when the sample
    returns true, the sentinel 1e20 with the flag false when it returns
    false or the camera throws; it neither lets the exception through nor
    exits. *)
Lemma IntensityError_call_cases (f : IntensityError) (A : R * R)
    (nb : Neighborhood) (g : Globals) :
  let sample :=
    computeReflectanceAndIntensity (center nb) (right nb) (top nb)
      (m_col f) (m_row f) (m_dem f) (m_geo f) (m_nodata_val f)
      (m_model_params f) (m_global_params f) (m_image f) (m_camera f) g in
  let out := IntensityError_call f A nb g in
  (forall reflectance intensity g',
     sample = (Val (true, reflectance, intensity), g') ->
     out = (Val (true, intensity - fst A * reflectance - snd A), g'))
  /\ (forall reflectance intensity g',
        sample = (Val (false, reflectance, intensity), g') ->
        out = (Val (false, 1e+20), g'))
  /\ (forall g', sample = (Thrown, g') -> out = (Val (false, 1e+20), g'))
  /\ fst out <> Thrown
  /\ fst out <> Exited.
Proof.
  intros sample out.
  assert (Hne : fst sample <> Exited) by apply cell_never_exits.
  unfold out, IntensityError_call. fold sample.
  destruct sample as [[[[ok r] i]| | |] g1]; cbn [fst] in *.
  - repeat split; try easy.
    + intros r' i' g' [= -> -> -> ->]. reflexivity.
    + intros r' i' g' [= -> -> -> ->]. reflexivity.
  - repeat split; try easy. now intros g' [= ->].
  - easy.
  - repeat split; easy.
Qed.

(** C5 (the code diverges): the functor at (1, 1) of a 3 x 3 DEM, evaluated
    on nine heights that all equal the no-data marker, with A = (2, 1).  The
    first evaluation, with no report yet, fails with the sentinel 1e20 and
    reports; the second, after the report, does not fail: the flag is true
    and the residual is [0.5 - 2 * 1.501149 - 1], computed from the no-data
    heights. *)
Theorem C5_nodata_residual_after_report :
  let nd := main_nodata_val in
  let f :=
    mkIntensityError 1 1 (dem_const 3 3 nd) geo_flat main_global_params
      (overhead 1 1 nd) (image_const 3 3 0.5) (camera_shift 0 0) nd in
  let nb := plane nd 0 0 in
  let reported := report_nodata g_initial in
  IntensityError_call f (2, 1) nb g_initial = (Val (false, 1e+20), reported)
  /\ g_errorCount reported = 1%Z
  /\ IntensityError_call f (2, 1) nb reported
     = (Val (true, 0.5 - 2 * 1.501149 - 1), reported).
Proof.
  intros nd f nb reported.
  assert (Hnb : center nb = nd /\ right nb = nd /\ top nb = nd)
    by (unfold nb, plane; cbn [center right top]; repeat split; lra).
  destruct Hnb as (Hc & Hr & Ht).
  split; [|split].
  - apply (proj1 (proj2 (IntensityError_call_cases f (2, 1) nb g_initial))
             0 0).
    rewrite Hc, Hr, Ht.
    cbn [f m_col m_row m_dem m_geo m_nodata_val m_model_params
         m_global_params m_image m_camera].
    rewrite cell_unfold. cbn [dem_const cols rows].
    change ((1 >=? 3 - 1) || (1 >=? 3 - 1))%Z with false. cbv iota.
    unfold first_nodata. rewrite Reqb_refl. reflexivity.
  - reflexivity.
  - apply (proj1 (IntensityError_call_cases f (2, 1) nb reported)
             1.501149 0.5).
    rewrite Hc, Hr, Ht.
    cbn [f m_col m_row m_dem m_geo m_nodata_val m_model_params
         m_global_params m_image m_camera].
    apply flat_cell_in_range.
    unfold first_nodata. cbn. apply andb_false_r.
Qed.

(** ** The projected pixel *)

(** C8 (as amended): once the camera has projected the surface point to a
    pixel, the sample fails exactly when the pixel is outside
    [0, cols-1) x [0, rows-1); inside, it succeeds with the interpolated
    intensity at the fractional pixel. *)
Theorem C8_pixel_range (center_h right_h top_h : R) (col row : Z)
    (dem : ImageView) (geo : GeoReference) (nodata_val : R)
    (mp : ModelParams) (gp : GlobalParams)
    (image : BilinearInterpT) (camera : CameraModel) (g : Globals)
    (n : Vector3) (reflectance : R) (alpha : option R) (pix : Vector2) :
  let base := xyz_at geo col row center_h in
  (col < cols dem - 1)%Z -> (row < rows dem - 1)%Z ->
  first_nodata center_h right_h top_h nodata_val g = false ->
  normalize (cross_prod (vsub (xyz_at geo (col + 1) row right_h) base)
                        (vsub (xyz_at geo col (row + 1) top_h) base)) = Some n ->
  ComputeReflectance (vneg n) base mp gp = Val (reflectance, alpha) ->
  point_to_pixel camera base = Some pix ->
  let out :=
    computeReflectanceAndIntensity center_h right_h top_h col row dem geo
      nodata_val mp gp image camera g in
  (out = (Val (false, reflectance, 0), g) <-> ~ in_sampled_range image pix)
  /\ (in_sampled_range image pix ->
      out = (Val (true, reflectance, interp image (v2_0 pix) (v2_1 pix)), g)).
Proof.
  intros base Hc Hr Hf Hn Hrefl Hpix out.
  assert (Hout : out = (Val (sample_pixel image pix reflectance 0), g)).
  { unfold out. rewrite cell_unfold, Hf.
    replace ((col >=? cols dem - 1) || (row >=? rows dem - 1))%Z with false
      by (symmetry; apply orb_false_iff; split; rewrite Z.geb_leb;
          apply Z.leb_gt; lia).
    unfold shade_and_sample. fold base. now rewrite Hn, Hrefl, Hpix. }
  rewrite Hout.
  destruct (in_sampled_range_dec image pix) as [Hin|Hnin].
  - rewrite sample_pixel_in_range by assumption. split; [|reflexivity].
    split; [discriminate|easy].
  - rewrite sample_pixel_out_of_range by assumption. split; easy.
Qed.

Lemma C8_witness :
  let image := image_const 3 3 0.5 in
  let pix := mkV2 (1 + 0.5) (1 + -1) in
  in_sampled_range image pix
  /\ computeReflectanceAndIntensity 0 0 0 1 1 (dem_const 3 3 0) geo_flat
       main_nodata_val (overhead 1 1 0) main_global_params image
       (camera_shift 0.5 (-1)) g_initial
     = (Val (true, 1 + 0.501149, interp image (v2_0 pix) (v2_1 pix)), g_initial).
Proof.
  intros image pix.
  assert (Hin : in_sampled_range image pix)
    by (unfold in_sampled_range; cbn; lra).
  split; [exact Hin|].
  refine (proj2 (C8_pixel_range 0 0 0 1 1 (dem_const 3 3 0) geo_flat
            main_nodata_val (overhead 1 1 0) main_global_params image
            (camera_shift 0.5 (-1)) g_initial (mkV3 0 0 1) (1 + 0.501149)
            (Some 0) pix _ _ _ _ _ _) Hin).
  - reflexivity.
  - reflexivity.
  - unfold first_nodata, main_nodata_val.
    replace (Reqb 0 (-32768)) with false by (symmetry; apply Reqb_false; lra).
    reflexivity.
  - apply flat_normal.
  - apply flat_reflectance.
  - reflexivity.
Defined.

(** C8, as documented, fails at a fractional pixel between cols-2 and
    cols-1: on a 3 x 3 image the pixel (1.5, 0) is outside [0, 1] x [0, 1],
    and the sample succeeds. *)
Lemma C8_counterexample :
  let image := image_const 3 3 0.5 in
  let pix := mkV2 (1 + 0.5) (1 + -1) in
  point_to_pixel (camera_shift 0.5 (-1)) (xyz_at geo_flat 1 1 0) = Some pix
  /\ ~ in_documented_range image pix
  /\ computeReflectanceAndIntensity 0 0 0 1 1 (dem_const 3 3 0) geo_flat
       main_nodata_val (overhead 1 1 0) main_global_params image
       (camera_shift 0.5 (-1)) g_initial
     = (Val (true, 1.501149, 0.5), g_initial).
Proof.
  intros image pix. split; [reflexivity|]. split.
  - unfold in_documented_range. cbn. lra.
  - unfold main_global_params, image.
    rewrite flat_cell by apply first_nodata_valid.
    rewrite sample_pixel_in_range.
    + cbn [image_const interp].
      replace (1 + 0.501149) with 1.501149 by lra. reflexivity.
    + unfold in_sampled_range. cbn. lra.
Qed.

(** ** compute_image_stats *)

(** Equality of tuples of doubles, component by component. *)
Ltac tuple_eq :=
  repeat match goal with |- (_, _) = (_, _) => apply f_equal2 end; try lra.

(** The accumulators after the loop: the sum, the sum of squares and the
    number of the pixels that are valid. *)
Lemma stats_fold (is_valid : R -> bool) (I : ImageView) (cells : list (Z * Z))
    (sum sum2 count : R) :
  let vals :=
    filter is_valid (map (fun cr => pixel I (fst cr) (snd cr)) cells) in
  fold_left (stats_step is_valid I) cells (sum, sum2, count)
  = (sum + Rsum vals, sum2 + Rsum (map (fun v => v * v) vals),
     count + INR (List.length vals)).
Proof.
  revert sum sum2 count.
  induction cells as [|[col row] cells IH]; intros sum sum2 count vals.
  - cbn. tuple_eq.
  - cbn [fold_left]. unfold stats_step at 2.
    subst vals. cbn [map filter fst snd].
    destruct (is_valid (pixel I col row)); cbn [negb].
    + rewrite IH. unfold Rsum. cbn [map fold_right List.length].
      rewrite S_INR. tuple_eq.
    + apply IH.
Qed.

(** The sum of squared deviations from any [m]. *)
Lemma Rsum_sq_dev (l : list R) (m : R) :
  Rsum (map (fun v => (v - m) ^ 2) l)
  = Rsum (map (fun v => v * v) l) - 2 * m * Rsum l + INR (List.length l) * m ^ 2.
Proof.
  induction l as [|a l IH].
  - cbn. lra.
  - unfold Rsum in *. cbn [map fold_right List.length]. rewrite S_INR, IH.
    ring.
Qed.

(** The code's one-pass formulas are the mean and the population standard
    deviation. *)
Lemma one_pass_formulas (l : list R) :
  l <> [] ->
  Rsum l / INR (List.length l) = mean_of l
  /\ sqrt (Rsum (map (fun v => v * v) l) / INR (List.length l)
           - mean_of l * mean_of l) = stdev_of l.
Proof.
  intros Hl.
  assert (Hn : 0 < INR (List.length l)).
  { destruct l; [easy|]. cbn [List.length]. apply lt_0_INR. lia. }
  assert (Hm : mean_of l = Rsum l / INR (List.length l))
    by (destruct l; [easy|reflexivity]).
  split; [now rewrite Hm|].
  assert (Hs : stdev_of l
               = sqrt (Rsum (map (fun v => (v - mean_of l) ^ 2) l)
                       / INR (List.length l)))
    by (destruct l; [easy|reflexivity]).
  rewrite Hs. f_equal. rewrite Rsum_sq_dev, Hm.
  field. lra.
Qed.

(** compute_image_stats returns the mean and the population standard
    deviation of the valid pixels, and (0, 0) when no pixel is valid. *)
Lemma compute_image_stats_spec (is_valid : R -> bool) (I : ImageView) :
  compute_image_stats is_valid I
  = (mean_of (valid_values is_valid I), stdev_of (valid_values is_valid I)).
Proof.
  unfold compute_image_stats.
  pose proof (stats_fold is_valid I (image_cells I) 0 0 0) as H.
  cbv zeta in H.
  change (filter is_valid
            (map (fun cr => pixel I (fst cr) (snd cr)) (image_cells I)))
    with (valid_values is_valid I) in H.
  rewrite H. clear H.
  generalize (valid_values is_valid I). intros l. unfold Rgtb.
  destruct (list_eq_dec Req_dec_T l []) as [->|Hl].
  - cbn.
    replace (Rltb 0 (0 + 0)) with false by (symmetry; apply Rltb_false; lra).
    reflexivity.
  - assert (Hn : 0 < INR (List.length l)).
    { destruct l; [easy|]. cbn [List.length]. apply lt_0_INR. lia. }
    replace (Rltb 0 (0 + INR (List.length l))) with true
      by (symmetry; apply Rltb_true; lra).
    destruct (one_pass_formulas l Hl) as [Hm Hs].
    rewrite !Rplus_0_l, Hm, Hs. reflexivity.
Qed.

(** Every cell inside an image is visited by the loops. *)
Lemma Zrange_In (lo hi x : Z) : In x (Zrange lo hi) <-> (lo <= x < hi)%Z.
Proof.
  unfold Zrange. rewrite in_map_iff. split.
  - intros [k [<- Hk]]. apply in_seq in Hk. lia.
  - intros H. exists (Z.to_nat (x - lo)). split; [lia|]. apply in_seq. lia.
Qed.

Lemma cells_In (c0 c1 r0 r1 col row : Z) :
  In (col, row)
     (flat_map (fun col => map (fun row => (col, row)) (Zrange r0 r1))
               (Zrange c0 c1))
  <-> (c0 <= col < c1 /\ r0 <= row < r1)%Z.
Proof.
  rewrite in_flat_map. split.
  - intros [c [Hc Hin]]. apply in_map_iff in Hin as [r [[= <- <-] Hr]].
    apply Zrange_In in Hc, Hr. lia.
  - intros [Hc Hr]. exists col. split; [now apply Zrange_In|].
    apply in_map_iff. exists row. split; [reflexivity|now apply Zrange_In].
Qed.


(** ** The simulated intensity and the callback *)

Lemma Zrange_NoDup (lo hi : Z) : NoDup (Zrange lo hi).
Proof.
  unfold Zrange. apply NoDup_map_NoDup_ForallPairs; [|apply seq_NoDup].
  intros a b _ _ H. lia.
Qed.

Lemma cells_NoDup (lr lc : list Z) :
  NoDup lr -> NoDup lc ->
  NoDup (flat_map (fun col => map (fun row => (col, row)) lr) lc).
Proof.
  intros Hr Hc. induction Hc as [|c lc Hnin Hc IH]; cbn [flat_map].
  - constructor.
  - apply NoDup_app.
    + apply NoDup_map_NoDup_ForallPairs; [|exact Hr].
      intros a b _ _ [= ->]. reflexivity.
    + exact IH.
    + intros [c' r'] H1 H2.
      apply in_map_iff in H1 as [r1 [[= <- <-] _]].
      apply in_flat_map in H2 as [c2 [Hc2 H2]].
      apply in_map_iff in H2 as [r2 [[= <- <-] _]]. contradiction.
Qed.

Lemma image_cells_NoDup (I : ImageView) : NoDup (image_cells I).
Proof. apply cells_NoDup; apply Zrange_NoDup. Qed.

(** The in-place loop over distinct cells applies the affine map once to
    each of them and leaves the dimensions alone. *)
Lemma affine_loop (A : R * R) (l : list (Z * Z)) :
  NoDup l ->
  forall (I : ImageView),
  let I' :=
    fold_left
      (fun I cr =>
         set_pixel I (fst cr) (snd cr)
           (fst A * pixel I (fst cr) (snd cr) + snd A)) l I in
  cols I' = cols I /\ rows I' = rows I
  /\ forall c r,
       (In (c, r) l -> pixel I' c r = fst A * pixel I c r + snd A)
       /\ (~ In (c, r) l -> pixel I' c r = pixel I c r).
Proof.
  induction 1 as [|[c0 r0] l Hnin Hnd IH]; intros I; cbn [fold_left].
  - repeat split; easy.
  - cbv zeta in IH |- *. cbn [fst snd].
    destruct (IH (set_pixel I c0 r0 (fst A * pixel I c0 r0 + snd A)))
      as (Hc & Hr & Hp).
    split; [exact Hc|]. split; [exact Hr|].
    intros c r. destruct (Hp c r) as [Hin Hout]. split.
    + intros [[= -> ->]|Hl].
      * rewrite Hout by exact Hnin. apply pixel_set_pixel_same.
      * rewrite Hin by exact Hl. rewrite pixel_set_pixel_other; [reflexivity|].
        intros [= -> ->]. contradiction.
    + intros Hn. rewrite Hout by (intros Hl; apply Hn; now right).
      apply pixel_set_pixel_other. intros [= -> ->]. apply Hn. now left.
Qed.

(** The pixels of the simulated intensity are [A0 * r + A1] for the pixels
    [r] of the reflectance image. *)
Lemma simulated_intensity_values (A : R * R) (reflectance : ImageView) :
  pixel_values (simulated_intensity A reflectance)
  = map (fun r => fst A * r + snd A) (pixel_values reflectance).
Proof.
  unfold simulated_intensity.
  destruct (affine_loop A (image_cells reflectance)
              (image_cells_NoDup reflectance) reflectance) as (Hc & Hr & Hp).
  cbv zeta in Hc, Hr, Hp.
  set (I' := fold_left _ _ reflectance) in *.
  assert (Hcells : image_cells I' = image_cells reflectance)
    by (unfold image_cells; now rewrite Hc, Hr).
  unfold pixel_values. rewrite Hcells, map_map. apply map_ext_in.
  intros [c r] Hin. cbn [fst snd]. now apply Hp.
Qed.


(** ** The outputs on the failure paths *)




(** ** The affine parameters *)

(** C9: with the mean and the standard deviation of the valid pixels of the
    intensity and reflectance images of the DEM as read,
    [A0 = imgstdev / refstdev] and [A1 = imgmean - A0 * refmean]; the
    division is not guarded, so a zero [refstdev] gives no real number.
    main assembles the problem after, and with, these parameters. *)
Theorem C9_affine_parameters (is_valid : R -> bool)
    (dem : ImageView) (geo : GeoReference) (nodata_val : R)
    (mp : ModelParams) (gp : GlobalParams)
    (image : BilinearInterpT) (camera : CameraModel)
    (g : Globals) (reflectance intensity : ImageView) (g' : Globals) :
  computeReflectanceAndIntensity_grid dem geo nodata_val mp gp image camera g
  = (Val (reflectance, intensity), g') ->
  let imgmean := mean_of (valid_values is_valid intensity) in
  let imgstdev := stdev_of (valid_values is_valid intensity) in
  let refmean := mean_of (valid_values is_valid reflectance) in
  let refstdev := stdev_of (valid_values is_valid reflectance) in
  let A0 := imgstdev / refstdev in
  let A1 := imgmean - A0 * refmean in
  (refstdev <> 0 ->
   estimate_A is_valid dem geo nodata_val mp gp image camera g
   = (Val (A0, A1), g')
   /\ forall smoothness_weight grid_size,
        main_setup is_valid smoothness_weight grid_size dem geo nodata_val mp
          gp image camera g
        = (Val (A0, A1,
                assemble
                  (fun col row =>
                     mkIntensityError col row dem geo gp mp image camera
                                      nodata_val)
                  smoothness_weight grid_size (cols dem) (rows dem)), g'))
  /\ (refstdev = 0 ->
      estimate_A is_valid dem geo nodata_val mp gp image camera g
      = (NotReal, g')).
Proof.
  intros H imgmean imgstdev refmean refstdev A0 A1.
  assert (He : estimate_A is_valid dem geo nodata_val mp gp image camera g
               = match fdiv imgstdev refstdev with
                 | None => (NotReal, g')
                 | Some a0 => (Val (a0, imgmean - a0 * refmean), g')
                 end).
  { unfold estimate_A, bind. rewrite H.
    rewrite !compute_image_stats_spec.
    fold imgmean imgstdev refmean refstdev.
    destruct (fdiv imgstdev refstdev); reflexivity. }
  split.
  - intros Hz. rewrite fdiv_some in He by exact Hz.
    split; [exact He|].
    intros w gs. unfold main_setup, bind. rewrite He. reflexivity.
  - intros Hz. rewrite Hz, fdiv_none in He. exact He.
Qed.

(** The pass over a flat 2 x 2 DEM: one cell is computed, the other three
    pixels keep the zero fill. *)
Lemma flat_grid_2x2 (g : Globals) :
  computeReflectanceAndIntensity_grid (dem_const 2 2 0) geo_flat
    main_nodata_val (overhead 0 0 0) main_global_params (image_const 3 3 0.5)
    (camera_shift 0 0) g
  = (Val (set_pixel (set_size 2 2) 0 0 (1 + 0.501149),
          set_pixel (set_size 2 2) 0 0 0.5), g).
Proof.
  unfold computeReflectanceAndIntensity_grid.
  change (grid_cells (dem_const 2 2 0)) with [(0, 0)%Z].
  cbn [for_each]. unfold bind at 1, grid_body, bind at 1.
  cbn [dem_const pixel cols rows].
  unfold main_global_params.
  rewrite flat_cell_at; [|reflexivity|reflexivity|apply first_nodata_valid].
  rewrite sample_pixel_in_range by (unfold in_sampled_range; cbn; lra).
  reflexivity.
Qed.

Lemma stdev_of_one_sample (v : R) : v <> 0 -> stdev_of [v; 0; 0; 0] <> 0.
Proof.
  intros Hv. unfold stdev_of, mean_of, Rsum.
  cbn [map fold_right List.length]. rewrite !INR_IZR_INZ. cbn [Z.of_nat Pos.of_succ_nat Pos.succ].
  intros H0. apply sqrt_eq_0 in H0; nra.
Qed.

Lemma C9_witness :
  let refl := [1 + 0.501149; 0; 0; 0] in
  let inten := [0.5; 0; 0; 0] in
  let A0 := stdev_of inten / stdev_of refl in
  stdev_of refl <> 0
  /\ estimate_A (fun _ => true) (dem_const 2 2 0) geo_flat main_nodata_val
       (overhead 0 0 0) main_global_params (image_const 3 3 0.5)
       (camera_shift 0 0) g_initial
     = (Val (A0, mean_of inten - A0 * mean_of refl), g_initial).
Proof.
  intros refl inten A0.
  assert (Hs : stdev_of refl <> 0) by (apply stdev_of_one_sample; lra).
  split; [exact Hs|].
  exact (proj1 (proj1 (C9_affine_parameters (fun _ => true) (dem_const 2 2 0)
                  geo_flat main_nodata_val (overhead 0 0 0) main_global_params
                  (image_const 3 3 0.5) (camera_shift 0 0) g_initial _ _
                  g_initial (flat_grid_2x2 g_initial)) Hs)).
Defined.

(** ** The smoothness residual *)

(** The value computed for a non-zero grid size, in the source's grouping. *)
Lemma SmoothnessError_call_value (weight grid_size : R) (nb : Neighborhood) :
  grid_size <> 0 ->
  let gs := grid_size * grid_size in
  SmoothnessError_call (mkSmoothnessError weight grid_size) nb
  = Val (true,
         ((left nb + right nb - 2 * center nb) / gs * weight,
          (tr nb + bl nb - tl nb - br nb) / 4 / gs * weight,
          (tr nb + bl nb - tl nb - br nb) / 4 / gs * weight,
          (top nb + bottom nb - 2 * center nb) / gs * weight)).
Proof.
  intros Hg gs.
  assert (Hgs : gs <> 0) by (unfold gs; nra).
  unfold SmoothnessError_call.
  cbn [m_grid_size m_smoothness_weight]. fold gs.
  rewrite !fdiv_some by exact Hgs.
  replace 4.0 with 4 by lra. reflexivity.
Qed.

(** With a zero grid size the residuals are not real numbers. *)
Lemma SmoothnessError_call_zero_grid (weight : R) (nb : Neighborhood) :
  SmoothnessError_call (mkSmoothnessError weight 0) nb = NotReal.
Proof.
  unfold SmoothnessError_call. cbn [m_grid_size].
  replace (0 * 0) with 0 by lra. now rewrite !fdiv_none.
Qed.

(** C6: for a positive grid size the four components are
    [weight * (left + right - 2 * center) / gs2],
    [weight * (tr + bl - tl - br) / (4 * gs2)], the same value again, and
    [weight * (top + bottom - 2 * center) / gs2], with
    [gs2 = grid_size * grid_size]; the flag is true.  On a plane (all nine
    heights equal, or a linear ramp along either axis) all four are 0. *)
Theorem C6_smoothness_residual (weight grid_size : R) (nb : Neighborhood) :
  0 < grid_size ->
  let gs2 := grid_size * grid_size in
  let u_xy := weight * (tr nb + bl nb - tl nb - br nb) / (4 * gs2) in
  SmoothnessError_call (mkSmoothnessError weight grid_size) nb
  = Val (true,
         (weight * (left nb + right nb - 2 * center nb) / gs2,
          u_xy, u_xy,
          weight * (top nb + bottom nb - 2 * center nb) / gs2))
  /\ forall a sx sy,
       nb = plane a sx sy ->
       SmoothnessError_call (mkSmoothnessError weight grid_size) nb
       = Val (true, (0, 0, 0, 0)).
Proof.
  intros Hg gs2 u_xy.
  assert (Hgs : gs2 <> 0) by (unfold gs2; nra).
  split.
  - rewrite SmoothnessError_call_value by lra. fold gs2. unfold u_xy.
    f_equal. f_equal.
    repeat match goal with |- (_, _) = (_, _) => apply f_equal2 end;
      field; exact Hgs.
  - intros a sx sy ->. rewrite SmoothnessError_call_value by lra. fold gs2.
    f_equal. f_equal.
    cbn [plane tl top tr left center right bl bottom br].
    repeat match goal with |- (_, _) = (_, _) => apply f_equal2 end;
      field; exact Hgs.
Qed.

Lemma C6_witness :
  0 < 2
  /\ SmoothnessError_call (mkSmoothnessError 3 2) (plane 1000 5 (-7))
     = Val (true, (0, 0, 0, 0)).
Proof.
  assert (H : 0 < 2) by lra.
  split; [exact H|].
  exact (proj2 (C6_smoothness_residual 3 2 (plane 1000 5 (-7)) H)
           1000 5 (-7) eq_refl).
Defined.

(** A neighbourhood that is not flat: the second difference in x is 2. *)
Example smoothness_bump :
  SmoothnessError_call (mkSmoothnessError 3 2) (mkNb 0 0 0 1 0 1 0 0 0)
  = Val (true, (3 / 2, 0, 0, 0)).
Proof.
  rewrite SmoothnessError_call_value by lra.
  cbn [tl top tr left center right bl bottom br]. f_equal. f_equal.
  repeat match goal with |- (_, _) = (_, _) => apply f_equal2 end; lra.
Qed.

(** ** Boundary pinning *)

Lemma block_eqb_eq (a b : ParameterBlock) : block_eqb a b = true <-> a = b.
Proof.
  destruct a as [|c r], b as [|c' r']; cbn; try easy.
  rewrite andb_true_iff, !Z.eqb_eq. split.
  - now intros [-> ->].
  - now intros [= -> ->].
Qed.

Lemma is_constant_In (p : Problem) (b : ParameterBlock) :
  is_constant p b = true <-> In b (constant_blocks p).
Proof.
  unfold is_constant. rewrite existsb_exists. split.
  - intros [x [Hx He]]. apply block_eqb_eq in He. now subst.
  - intros H. exists b. split; [exact H|]. now apply block_eqb_eq.
Qed.

Lemma constant_blocks_set (bs : list ParameterBlock) (p : Problem)
    (b : ParameterBlock) :
  In b (constant_blocks
          (fold_left (fun p b => SetParameterBlockConstant b p) bs p))
  <-> In b bs \/ In b (constant_blocks p).
Proof.
  revert p. induction bs as [|x bs IH]; intros p; cbn [fold_left].
  - cbn. tauto.
  - rewrite IH. cbn. tauto.
Qed.

Lemma constant_blocks_assemble_cell (create : Z -> Z -> IntensityError)
    (w gs : R) (ncols nrows : Z) (p : Problem) (cr : Z * Z)
    (b : ParameterBlock) :
  In b (constant_blocks (assemble_cell create w gs ncols nrows p cr))
  <-> In b (boundary_blocks ncols nrows (fst cr) (snd cr))
      \/ In b (constant_blocks p).
Proof.
  destruct cr as [col row]. unfold assemble_cell.
  rewrite constant_blocks_set. reflexivity.
Qed.

Lemma constant_blocks_loop (create : Z -> Z -> IntensityError)
    (w gs : R) (ncols nrows : Z) (cells : list (Z * Z)) (p : Problem)
    (b : ParameterBlock) :
  In b (constant_blocks
          (fold_left (assemble_cell create w gs ncols nrows) cells p))
  <-> (exists cr, In cr cells
                  /\ In b (boundary_blocks ncols nrows (fst cr) (snd cr)))
      \/ In b (constant_blocks p).
Proof.
  revert p. induction cells as [|cr cells IH]; intros p; cbn [fold_left].
  - cbn. split; [tauto|]. intros [[cr [[] _]]|H]; exact H.
  - rewrite IH, constant_blocks_assemble_cell. split.
    + intros [[cr' [Hin Hb]]|[Hb|Hp]].
      * left. exists cr'. split; [now right|exact Hb].
      * left. exists cr. split; [now left|exact Hb].
      * now right.
    + intros [[cr' [[<-|Hin] Hb]]|Hp].
      * right. now left.
      * left. now exists cr'.
      * right. now right.
Qed.

(** A cell pinned from an interior cell lies on the outer ring. *)
Lemma boundary_blocks_on_ring (ncols nrows col row c r : Z) :
  (1 <= col < ncols - 1)%Z -> (1 <= row < nrows - 1)%Z ->
  In (Block_dem c r) (boundary_blocks ncols nrows col row) ->
  outer_ring ncols nrows c r.
Proof.
  intros Hc Hr. unfold boundary_blocks, outer_ring.
  rewrite !in_app_iff.
  destruct (Z.eqb_spec col 1); destruct (Z.eqb_spec row 1);
    destruct (Z.eqb_spec col (ncols - 2));
    destruct (Z.eqb_spec row (nrows - 2)); cbn [In];
    intros H; repeat (destruct H as [H|H]; try easy);
    injection H as <- <-; lia.
Qed.

(** Every cell of the outer ring is pinned from the interior cell next to
    it. *)
Lemma ring_in_boundary_blocks (ncols nrows c r : Z) :
  (3 <= ncols)%Z -> (3 <= nrows)%Z ->
  outer_ring ncols nrows c r ->
  let col := Z.max 1 (Z.min c (ncols - 2)) in
  let row := Z.max 1 (Z.min r (nrows - 2)) in
  (1 <= col < ncols - 1)%Z /\ (1 <= row < nrows - 1)%Z
  /\ In (Block_dem c r) (boundary_blocks ncols nrows col row).
Proof.
  intros Hnc Hnr (Hc & Hr & Hring) col row.
  split; [lia|]. split; [lia|].
  unfold boundary_blocks. rewrite !in_app_iff.
  assert (Hcc : (c = col - 1 \/ c = col \/ c = col + 1)%Z) by lia.
  assert (Hrr : (r = row - 1 \/ r = row \/ r = row + 1)%Z) by lia.
  destruct Hring as [H|[H|[H|H]]].
  - left. replace (col =? 1)%Z with true by (symmetry; apply Z.eqb_eq; lia).
    replace (col - 1)%Z with c by lia. cbn [In].
    destruct Hrr as [E|[E|E]]; [left|right; left|right; right; left];
      f_equal; lia.
  - right. left.
    replace (row =? 1)%Z with true by (symmetry; apply Z.eqb_eq; lia).
    replace (row - 1)%Z with r by lia. cbn [In].
    destruct Hcc as [E|[E|E]]; [left|right; left|right; right; left];
      f_equal; lia.
  - right. right. left.
    replace (col =? ncols - 2)%Z with true by (symmetry; apply Z.eqb_eq; lia).
    replace (col + 1)%Z with c by lia. cbn [In].
    destruct Hrr as [E|[E|E]]; [left|right; left|right; right; left];
      f_equal; lia.
  - right. right. right.
    replace (row =? nrows - 2)%Z with true by (symmetry; apply Z.eqb_eq; lia).
    replace (row + 1)%Z with r by lia. cbn [In].
    destruct Hcc as [E|[E|E]]; [left|right; left|right; right; left];
      f_equal; lia.
Qed.

(** The cells main sets constant are exactly those of the outer ring. *)
Lemma assemble_constant_iff (create : Z -> Z -> IntensityError) (w gs : R)
    (ncols nrows c r : Z) :
  (3 <= ncols)%Z -> (3 <= nrows)%Z ->
  is_constant (assemble create w gs ncols nrows) (Block_dem c r) = true
  <-> outer_ring ncols nrows c r.
Proof.
  intros Hnc Hnr. rewrite is_constant_In. unfold assemble.
  cbn [SetParameterBlockConstant constant_blocks In].
  rewrite constant_blocks_loop. cbn [constant_blocks In]. split.
  - intros [H|[H|H]]; [discriminate| |contradiction].
    destruct H as ((col & row) & Hin & Hb).
    apply cells_In in Hin. cbn [fst snd] in Hb.
    eapply boundary_blocks_on_ring; [| |exact Hb]; lia.
  - intros H. right. left.
    destruct (ring_in_boundary_blocks ncols nrows c r Hnc Hnr H)
      as (Hc & Hr & Hb).
    eexists (_, _). split; [|exact Hb].
    unfold interior_cells. apply cells_In. lia.
Qed.

(** C7: on a grid of at least 3 x 3 cells, after main's assembly a height
    variable is constant exactly when its cell is on the outermost ring
    (and the array A is constant too); a solve, which keeps constant blocks,
    leaves every height of the outermost ring unchanged. *)
Theorem C7_boundary_pinning (create : Z -> Z -> IntensityError)
    (smoothness_weight grid_size : R) (ncols nrows : Z) :
  (3 <= ncols)%Z -> (3 <= nrows)%Z ->
  let problem := assemble create smoothness_weight grid_size ncols nrows in
  (forall col row,
     is_constant problem (Block_dem col row) = true
     <-> outer_ring ncols nrows col row)
  /\ is_constant problem Block_A = true
  /\ (forall dem dem',
        solve_keeps_constant problem dem dem' ->
        forall col row,
          outer_ring ncols nrows col row ->
          pixel dem' col row = pixel dem col row).
Proof.
  intros Hnc Hnr problem. split; [|split].
  - intros col row. now apply assemble_constant_iff.
  - reflexivity.
  - intros dem dem' Hs col row Hring. apply Hs.
    now apply assemble_constant_iff.
Qed.

Lemma C7_witness :
  let create col row :=
    mkIntensityError col row (dem_const 3 4 0) geo_flat main_global_params
      (overhead 1 1 0) (image_const 3 3 0.5) (camera_shift 0 0)
      main_nodata_val in
  let problem := assemble create 1 1 3 4 in
  (3 <= 3)%Z /\ (3 <= 4)%Z
  /\ is_constant problem (Block_dem 2 3) = true
  /\ is_constant problem (Block_dem 1 2) = false.
Proof.
  intros create problem.
  assert (H3 : (3 <= 3)%Z) by lia.
  assert (H4 : (3 <= 4)%Z) by lia.
  destruct (C7_boundary_pinning create 1 1 3 4 H3 H4) as [Hiff _].
  split; [exact H3|]. split; [exact H4|]. split.
  - apply Hiff. unfold outer_ring. lia.
  - destruct (is_constant problem (Block_dem 1 2)) eqn:E; [|reflexivity].
    apply Hiff in E. unfold outer_ring in E. lia.
Defined.

(** The calls on a 3 x 3 grid: the one interior cell pins the eight cells
    around it, the corners twice. *)
Example assemble_3x3 (create : Z -> Z -> IntensityError) (w gs : R) :
  constant_blocks (assemble create w gs 3 3)
  = [ Block_A;
      Block_dem 2 2; Block_dem 1 2; Block_dem 0 2;
      Block_dem 2 2; Block_dem 2 1; Block_dem 2 0;
      Block_dem 2 0; Block_dem 1 0; Block_dem 0 0;
      Block_dem 0 2; Block_dem 0 1; Block_dem 0 0 ]%Z.
Proof. reflexivity. Qed.

Example interior_cells_4x5 :
  interior_cells 4 5 = [(1, 1); (1, 2); (1, 3); (2, 1); (2, 2); (2, 3)]%Z.
Proof. reflexivity. Qed.

(** * Further properties of the code *)

(** ** Reflectance models *)

(** Lagrange's identity, as an inequality: [(u.n)^2 <= (u.u) (n.n)]. *)
Lemma dot_prod_sqr_le (u n : Vector3) :
  dot_prod u n * dot_prod u n <= dot_prod u u * dot_prod n n.
Proof.
  destruct u as [a b c], n as [x y z]. unfold dot_prod. cbn [v3_0 v3_1 v3_2].
  pose proof (Rle_0_sqr (b * z - c * y)).
  pose proof (Rle_0_sqr (c * x - a * z)).
  pose proof (Rle_0_sqr (a * y - b * x)).
  unfold Rsqr in *. nra.
Qed.

(** X2: for a normal of unit length the Lambertian reflectance is the
    signed cosine of the angle between the sun direction and the normal:
    it lies between -1 and 1, times the distance to the sun it is the dot
    product of [sunPos - xyz] with the normal, and it is not clamped at 0:
    it is negative exactly when the sun is behind the surface. *)
Theorem X2_lambert_reflectance_bounded (sunPos xyz normal : Vector3) (r : R) :
  dot_prod normal normal = 1 ->
  computeLambertianReflectanceFromNormal sunPos xyz normal = Val r ->
  -1 <= r <= 1
  /\ r * norm_2 (vsub sunPos xyz) = dot_prod (vsub sunPos xyz) normal
  /\ (r < 0 <-> dot_prod (vsub sunPos xyz) normal < 0).
Proof.
  intros Hn. unfold computeLambertianReflectanceFromNormal.
  destruct (normalize (vsub sunPos xyz)) as [sd|] eqn:Hs; [|discriminate].
  intros [= <-]. fold (dot_prod sd normal).
  assert (Hb : -1 <= dot_prod sd normal <= 1).
  { pose proof (dot_prod_sqr_le sd normal) as H.
    rewrite (normalize_unit _ _ Hs), Hn in H. nra. }
  destruct (normalize_some _ _ Hs) as [Hne ->].
  pose proof (norm_2_nonneg (vsub sunPos xyz)) as Hpos.
  set (d := norm_2 (vsub sunPos xyz)) in *.
  assert (Hd : 0 < d) by lra.
  assert (Hmul : dot_prod (mkV3 (v3_0 (vsub sunPos xyz) / d)
                                (v3_1 (vsub sunPos xyz) / d)
                                (v3_2 (vsub sunPos xyz) / d)) normal * d
                 = dot_prod (vsub sunPos xyz) normal).
  { unfold dot_prod. cbn [v3_0 v3_1 v3_2]. now field. }
  split; [exact Hb|]. split; [exact Hmul|].
  rewrite <- Hmul. split; intros H; nra.
Qed.

Lemma X2_witness :
  let n := mkV3 0 0 1 in
  let sun := mkV3 3 0 (-4) in
  let o := mkV3 0 0 0 in
  dot_prod n n = 1
  /\ computeLambertianReflectanceFromNormal sun o n = Val (- 4 / 5)
  /\ - 4 / 5 < 0.
Proof.
  intros n sun o.
  assert (Hn : dot_prod n n = 1) by (unfold dot_prod, n; cbn; lra).
  assert (Hv : computeLambertianReflectanceFromNormal sun o n = Val (- 4 / 5)).
  { unfold computeLambertianReflectanceFromNormal, normalize, norm_2.
    replace (dot_prod (vsub sun o) (vsub sun o)) with (5 * 5)
      by (unfold dot_prod, vsub, sun, o; cbn; lra).
    rewrite sqrt_square by lra.
    destruct (Req_dec_T 5 0); [lra|].
    cbn [v3_0 v3_1 v3_2 vsub sun o n]. f_equal. lra. }
  split; [exact Hn|]. split; [exact Hv|].
  apply (proj2 (proj2 (X2_lambert_reflectance_bounded sun o n (- 4 / 5) Hn Hv))).
  unfold dot_prod, vsub, sun, o, n; cbn; lra.
Defined.

(** X3: when the sun lies along the unit normal, at any distance, the
    Lambertian reflectance is 1. *)
Theorem X3_lambert_sun_along_normal (sunPos xyz normal : Vector3) (t : R) :
  dot_prod normal normal = 1 ->
  0 < t ->
  vsub sunPos xyz = vscale t normal ->
  computeLambertianReflectanceFromNormal sunPos xyz normal = Val 1.
Proof.
  intros Hn Ht Hs. unfold computeLambertianReflectanceFromNormal.
  rewrite Hs.
  assert (Hnorm : norm_2 (vscale t normal) = t).
  { unfold norm_2.
    replace (dot_prod (vscale t normal) (vscale t normal))
      with (t * t * dot_prod normal normal)
      by (unfold dot_prod, vscale; cbn; ring).
    rewrite Hn, Rmult_1_r. apply sqrt_square. lra. }
  unfold normalize. rewrite Hnorm.
  destruct (Req_dec_T t 0); [lra|].
  cbn [v3_0 v3_1 v3_2 vscale]. f_equal.
  unfold dot_prod in Hn. field_simplify_eq; [|lra]. nra.
Qed.

Lemma X3_witness :
  let n := mkV3 0 0 1 in
  let o := mkV3 1 2 3 in
  let sun := mkV3 1 2 10 in
  dot_prod n n = 1 /\ 0 < 7 /\ vsub sun o = vscale 7 n
  /\ computeLambertianReflectanceFromNormal sun o n = Val 1.
Proof.
  intros n o sun.
  assert (Hn : dot_prod n n = 1) by (unfold dot_prod, n; cbn; lra).
  assert (Ht : 0 < 7) by lra.
  assert (Hs : vsub sun o = vscale 7 n)
    by (unfold vsub, vscale, sun, o, n; cbn; f_equal; lra).
  repeat split; try assumption.
  exact (X3_lambert_sun_along_normal sun o n 7 Hn Ht Hs).
Defined.

(** Scaling a vector by a positive factor does not change its direction. *)
Lemma normalize_vscale (t : R) (v : Vector3) :
  0 < t -> normalize (vscale t v) = normalize v.
Proof.
  intros Ht.
  assert (Hnorm : norm_2 (vscale t v) = t * norm_2 v).
  { unfold norm_2.
    replace (dot_prod (vscale t v) (vscale t v)) with (t * t * dot_prod v v)
      by (unfold dot_prod, vscale; cbn; ring).
    rewrite sqrt_mult; [|nra|apply dot_prod_nonneg].
    rewrite sqrt_square by lra. reflexivity. }
  unfold normalize. rewrite Hnorm.
  destruct (Req_dec_T (norm_2 v) 0) as [E|E].
  - rewrite E, Rmult_0_r. now destruct (Req_dec_T 0 0).
  - destruct (Req_dec_T (t * norm_2 v) 0) as [E'|_]; [nra|].
    cbn [v3_0 v3_1 v3_2 vscale]. f_equal. f_equal; field; lra.
Qed.

(** X4: the reflectance depends on the sun and on the camera through their
    directions only: moving either along its ray from the surface point, by
    a positive factor, changes nothing, under every model. *)
Theorem X4_reflectance_ignores_distance (normal xyz : Vector3)
    (mp mp' : ModelParams) (gp : GlobalParams) (t s : R) :
  0 < t -> 0 < s ->
  vsub (sunPosition mp') xyz = vscale t (vsub (sunPosition mp) xyz) ->
  vsub (cameraPosition mp') xyz = vscale s (vsub (cameraPosition mp) xyz) ->
  ComputeReflectance normal xyz mp' gp = ComputeReflectance normal xyz mp gp.
Proof.
  intros Ht Hs Hsun Hcam.
  unfold ComputeReflectance, computeLunarLambertianReflectanceFromNormal,
    computeLambertianReflectanceFromNormal.
  rewrite Hsun, Hcam, !normalize_vscale by assumption. reflexivity.
Qed.

Lemma X4_witness :
  let n := mkV3 0 0 1 in
  let o := mkV3 0 0 0 in
  let mp := mkModelParams (mkV3 1 0 1) (mkV3 0 1 1) in
  let mp' := mkModelParams (mkV3 2 0 2) (mkV3 0 3 3) in
  0 < 2 /\ 0 < 3
  /\ ComputeReflectance n o mp' main_global_params
     = ComputeReflectance n o mp main_global_params.
Proof.
  intros n o mp mp'.
  assert (H2 : 0 < 2) by lra.
  assert (H3 : 0 < 3) by lra.
  split; [exact H2|]. split; [exact H3|].
  apply (X4_reflectance_ignores_distance n o mp mp' main_global_params 2 3
           H2 H3).
  - unfold vsub, vscale, mp, mp', o. cbn. f_equal; lra.
  - unfold vsub, vscale, mp, mp', o. cbn. f_equal; lra.
Defined.

(** ** Sampling one grid point *)

(** X5: a call of computeReflectanceAndIntensity that returns success was
    inside the grid, met no first no-data report, left the globals alone,
    and returns the reflectance of its unit normal together with the
    intensity interpolated at the projected pixel, which lies in
    [0, cols-1) x [0, rows-1). *)
Theorem X5_successful_sample (center_h right_h top_h : R) (col row : Z)
    (dem : ImageView) (geo : GeoReference) (nodata_val : R)
    (mp : ModelParams) (gp : GlobalParams)
    (image : BilinearInterpT) (camera : CameraModel)
    (g : Globals) (reflectance intensity : R) (g' : Globals) :
  computeReflectanceAndIntensity center_h right_h top_h col row dem geo
    nodata_val mp gp image camera g
  = (Val (true, reflectance, intensity), g') ->
  let base := xyz_at geo col row center_h in
  (col < cols dem - 1)%Z /\ (row < rows dem - 1)%Z
  /\ first_nodata center_h right_h top_h nodata_val g = false
  /\ g' = g
  /\ exists n alpha pix,
       normalize
         (cross_prod (vsub (xyz_at geo (col + 1) row right_h) base)
                     (vsub (xyz_at geo col (row + 1) top_h) base)) = Some n
       /\ dot_prod (vneg n) (vneg n) = 1
       /\ ComputeReflectance (vneg n) base mp gp = Val (reflectance, alpha)
       /\ point_to_pixel camera base = Some pix
       /\ in_sampled_range image pix
       /\ intensity = interp image (v2_0 pix) (v2_1 pix).
Proof.
  rewrite cell_unfold. intros H base.
  destruct ((col >=? cols dem - 1) || (row >=? rows dem - 1))%Z eqn:Hg;
    [discriminate|].
  apply orb_false_iff in Hg. rewrite !Z.geb_leb, !Z.leb_gt in Hg.
  destruct (first_nodata _ _ _ _ _); [discriminate|].
  unfold shade_and_sample in H. fold base in H.
  destruct (normalize _) as [n|] eqn:Hn; [|discriminate].
  destruct (ComputeReflectance _ _ _ _) as [[r a]| | |] eqn:Hr;
    try discriminate.
  destruct (point_to_pixel _ _) as [pix|] eqn:Hp; [|discriminate].
  destruct (in_sampled_range_dec image pix) as [Hin|Hnin].
  - rewrite sample_pixel_in_range in H by assumption.
    injection H as <- <- <-.
    repeat split; try lia.
    exists n, a, pix. repeat split; try assumption; try apply Hin.
    rewrite dot_prod_vneg. eapply normalize_unit; eassumption.
  - rewrite sample_pixel_out_of_range in H by assumption. discriminate.
Qed.

Lemma X5_witness :
  computeReflectanceAndIntensity 0 0 0 1 1 (dem_const 3 3 0) geo_flat
    main_nodata_val (overhead 1 1 0) main_global_params (image_const 3 3 0.5)
    (camera_shift 0 0) g_initial
  = (Val (true, 1.501149, 0.5), g_initial)
  /\ (1 < cols (dem_const 3 3 0) - 1)%Z.
Proof.
  assert (H := flat_cell_in_range 0 g_initial (first_nodata_valid g_initial)).
  split; [exact H|].
  exact (proj1 (X5_successful_sample 0 0 0 1 1 (dem_const 3 3 0) geo_flat
                  main_nodata_val (overhead 1 1 0) main_global_params
                  (image_const 3 3 0.5) (camera_shift 0 0) g_initial
                  1.501149 0.5 g_initial H)).
Defined.

(** ** Loops in [M] *)

Lemma for_each_never_exits {I S : Type} (body : I -> S -> M S) :
  (forall i s g, fst (body i s g) <> Exited) ->
  forall l s g, fst (for_each body l s g) <> Exited.
Proof.
  intros Hb. induction l as [|i l IH]; intros s g; [easy|].
  cbn [for_each]. unfold bind at 1.
  pose proof (Hb i s g) as H.
  destruct (body i s g) as [[s'| | |] g1]; cbn [fst] in H;
    [apply IH|discriminate|exact H|discriminate].
Qed.

Lemma grid_body_never_exits (dem : ImageView) (geo : GeoReference)
    (nodata_val : R) (mp : ModelParams) (gp : GlobalParams)
    (image : BilinearInterpT) (camera : CameraModel)
    (cr : Z * Z) (out : ImageView * ImageView) (g : Globals) :
  fst (grid_body dem geo nodata_val mp gp image camera cr out g) <> Exited.
Proof.
  destruct cr as [c r], out as [R0 I0]. unfold grid_body, bind, ret.
  pose proof (cell_never_exits dem geo nodata_val mp gp image camera
                (pixel dem c r) (pixel dem (c + 1) r) (pixel dem c (r + 1))
                c r g) as H.
  destruct (computeReflectanceAndIntensity _ _ _ _ _ _ _ _ _ _ _ _ g)
    as [[[[ok refl] inten]| | |] g1]; easy.
Qed.

(** ** The pass over the grid, the estimation and the callback *)

(** X6: the unit-normal test of the reflectance model can never end the
    run from the sampler: neither a single sample, nor the pass over the
    grid, nor the estimation of the affine parameters with the assembly,
    nor the callback reaches [exit(1)], whatever the DEM, the geo-reference
    and the camera. *)
Theorem X6_sampling_never_exits (is_valid : R -> bool) (w gs : R) (g_iter : Z)
    (A : R * R) (center_h right_h top_h : R) (col row : Z)
    (dem : ImageView) (geo : GeoReference) (nodata_val : R)
    (mp : ModelParams) (gp : GlobalParams)
    (image : BilinearInterpT) (camera : CameraModel) (g : Globals) :
  fst (computeReflectanceAndIntensity center_h right_h top_h col row dem geo
         nodata_val mp gp image camera g) <> Exited
  /\ fst (computeReflectanceAndIntensity_grid dem geo nodata_val mp gp image
            camera g) <> Exited
  /\ fst (main_setup is_valid w gs dem geo nodata_val mp gp image camera g)
     <> Exited
  /\ fst (SfsCallback is_valid g_iter dem geo nodata_val A mp gp image
            camera g) <> Exited.
Proof.
  assert (Hgrid : fst (computeReflectanceAndIntensity_grid dem geo nodata_val
                         mp gp image camera g) <> Exited).
  { unfold computeReflectanceAndIntensity_grid.
    apply for_each_never_exits. intros. apply grid_body_never_exits. }
  split; [apply cell_never_exits|]. split; [exact Hgrid|]. split.
  - unfold main_setup, estimate_A, bind, ret, lift.
    destruct (computeReflectanceAndIntensity_grid _ _ _ _ _ _ _ g)
      as [[[Rf If]| | |] g1]; cbn [fst] in *; try easy.
    destruct (compute_image_stats is_valid If) as [im isd].
    destruct (compute_image_stats is_valid Rf) as [rm rsd].
    destruct (fdiv isd rsd); easy.
  - unfold SfsCallback, bind, ret.
    destruct (computeReflectanceAndIntensity_grid _ _ _ _ _ _ _ g)
      as [[[Rf If]| | |] g1]; cbn [fst] in *; easy.
Qed.

(** X7: the no-data message is printed, and the counter incremented, at
    most once in a run: from globals that hold no report or the single one,
    a sample, a residual evaluation, the pass over the grid, the estimation
    and the callback all end in such globals. *)
Theorem X7_at_most_one_report (is_valid : R -> bool) (g_iter : Z) (A : R * R)
    (f : IntensityError) (nb : Neighborhood)
    (dem : ImageView) (geo : GeoReference) (nodata_val : R)
    (mp : ModelParams) (gp : GlobalParams)
    (image : BilinearInterpT) (camera : CameraModel) (g : Globals) :
  at_most_one_report g ->
  at_most_one_report (snd (IntensityError_call f A nb g))
  /\ at_most_one_report
       (snd (computeReflectanceAndIntensity_grid dem geo nodata_val mp gp
               image camera g))
  /\ at_most_one_report
       (snd (estimate_A is_valid dem geo nodata_val mp gp image camera g))
  /\ at_most_one_report
       (snd (SfsCallback is_valid g_iter dem geo nodata_val A mp gp image
               camera g)).
Proof.
  intros Hg.
  pose proof (grid_at_most_one_report dem geo nodata_val mp gp image camera
                g Hg) as Hgrid.
  split; [|split; [exact Hgrid|split]].
  - unfold IntensityError_call.
    pose proof (cell_at_most_one_report (m_dem f) (m_geo f) (m_nodata_val f)
                  (m_model_params f) (m_global_params f) (m_image f)
                  (m_camera f) (center nb) (right nb) (top nb) (m_col f)
                  (m_row f) g Hg) as H.
    destruct (computeReflectanceAndIntensity _ _ _ _ _ _ _ _ _ _ _ _ g)
      as [[[[ok r] i]| | |] g1]; exact H.
  - unfold estimate_A, bind, ret, lift.
    destruct (computeReflectanceAndIntensity_grid _ _ _ _ _ _ _ g)
      as [[[Rf If]| | |] g1]; cbn [snd] in *; try exact Hgrid.
    destruct (compute_image_stats is_valid If) as [im isd].
    destruct (compute_image_stats is_valid Rf) as [rm rsd].
    destruct (fdiv isd rsd); exact Hgrid.
  - unfold SfsCallback, bind, ret.
    destruct (computeReflectanceAndIntensity_grid _ _ _ _ _ _ _ g)
      as [[[Rf If]| | |] g1]; cbn [snd] in *; exact Hgrid.
Qed.

Lemma X7_witness :
  let nd := main_nodata_val in
  at_most_one_report g_initial
  /\ at_most_one_report
       (snd (computeReflectanceAndIntensity_grid (dem_const 3 3 nd) geo_flat nd
               (overhead 1 1 nd) main_global_params (image_const 3 3 0.5)
               (camera_shift 0 0) g_initial)).
Proof.
  intros nd.
  assert (H : at_most_one_report g_initial) by (now left).
  split; [exact H|].
  exact (proj1 (proj2 (X7_at_most_one_report (fun _ => true) 0 (0, 0)
                  (mkIntensityError 1 1 (dem_const 3 3 nd) geo_flat
                     main_global_params (overhead 1 1 nd)
                     (image_const 3 3 0.5) (camera_shift 0 0) nd)
                  (plane 0 0 0) (dem_const 3 3 nd) geo_flat nd
                  (overhead 1 1 nd) main_global_params (image_const 3 3 0.5)
                  (camera_shift 0 0) g_initial H))).
Defined.

Lemma for_each_failure {I S : Type} (body : I -> S -> M S) (l : list I) :
  forall s g,
  (forall v, fst (for_each body l s g) <> Val v) ->
  exists i s0 g0,
    In i l /\ fst (body i s0 g0) = fst (for_each body l s g).
Proof.
  induction l as [|i l IH]; intros s g Hf.
  - exfalso. now apply (Hf s).
  - cbn [for_each] in *. unfold bind at 1 in Hf. unfold bind at 1.
    destruct (body i s g) as [[s'| | |] g1] eqn:Hb.
    + destruct (IH s' g1 Hf) as (j & s0 & g0 & Hj & E).
      exists j, s0, g0. split; [now right|exact E].
    + exists i, s, g. split; [now left|now rewrite Hb].
    + exists i, s, g. split; [now left|now rewrite Hb].
    + exists i, s, g. split; [now left|now rewrite Hb].
Qed.

Lemma grid_cells_In (dem : ImageView) (col row : Z) :
  In (col, row) (grid_cells dem)
  <-> (0 <= col < cols dem - 1 /\ 0 <= row < rows dem - 1)%Z.
Proof. apply cells_In. Qed.

Lemma grid_cells_degenerate (dem : ImageView) :
  (cols dem <= 1 \/ rows dem <= 1)%Z -> grid_cells dem = [].
Proof.
  intros H. destruct (grid_cells dem) as [|[c r] l] eqn:E; [reflexivity|].
  assert (Hin : In (c, r) (grid_cells dem)) by (rewrite E; now left).
  apply grid_cells_In in Hin. lia.
Qed.

Section GridPass.

Variables (dem : ImageView) (geo : GeoReference) (nodata_val : R)
          (mp : ModelParams) (gp : GlobalParams)
          (image : BilinearInterpT) (camera : CameraModel).

Lemma grid_body_outcome (col row : Z) (R0 I0 : ImageView) (g : Globals) :
  let r := computeReflectanceAndIntensity (pixel dem col row)
             (pixel dem (col + 1) row) (pixel dem col (row + 1)) col row dem
             geo nodata_val mp gp image camera g in
  let b := grid_body dem geo nodata_val mp gp image camera (col, row)
             (R0, I0) g in
  snd b = snd r
  /\ (fst b = Thrown -> fst r = Thrown)
  /\ (fst b = NotReal -> fst r = NotReal).
Proof.
  intros r b. unfold b, grid_body, bind, ret. fold r.
  destruct r as [[[[ok refl] inten]| | |] g1]; cbn [fst snd];
    repeat split; easy.
Qed.

Lemma first_nodata_reported (a b c : R) (g : Globals) :
  g_errorCount g = 0%Z -> first_nodata a b c nodata_val (report_nodata g) = false.
Proof.
  intros H. unfold first_nodata, report_nodata. cbn [g_errorCount].
  rewrite H. cbn. apply andb_false_r.
Qed.

Lemma first_nodata_count (a b c : R) (g : Globals) :
  first_nodata a b c nodata_val g = true -> g_errorCount g = 0%Z.
Proof.
  unfold first_nodata. intros H. apply andb_true_iff in H as [_ H].
  now apply Z.eqb_eq in H.
Qed.

Lemma grid_loop_globals (l : list (Z * Z)) :
  (forall c r, In (c, r) l -> (c < cols dem - 1 /\ r < rows dem - 1)%Z) ->
  forall (s : ImageView * ImageView) (g : Globals)
         (s' : ImageView * ImageView) (g' : Globals),
  for_each (grid_body dem geo nodata_val mp gp image camera) l s g
  = (Val s', g') ->
  g' = if existsb (nodata_at dem nodata_val g) l then report_nodata g else g.
Proof.
  induction l as [|[c r] l IH]; intros Hl s g s' g' H.
  - cbn in H. unfold ret in H. now injection H as _ <-.
  - cbn [for_each] in H. unfold bind at 1 in H.
    destruct s as [R0 I0].
    pose proof (proj1 (grid_body_outcome c r R0 I0 g)) as Hs.
    rewrite cell_globals in Hs.
    replace ((c >=? cols dem - 1) || (r >=? rows dem - 1))%Z with false in Hs
      by (symmetry; apply orb_false_iff;
          destruct (Hl c r (or_introl eq_refl));
          split; rewrite Z.geb_leb; apply Z.leb_gt; lia).
    cbn [negb andb] in Hs.
    destruct (grid_body dem geo nodata_val mp gp image camera (c, r) (R0, I0) g)
      as [[s1| | |] g1]; try discriminate.
    cbn [snd] in Hs.
    assert (Hl' : forall c r, In (c, r) l ->
                    (c < cols dem - 1 /\ r < rows dem - 1)%Z)
      by (intros; apply Hl; now right).
    specialize (IH Hl' s1 g1 s' g' H).
    cbn [existsb]. unfold nodata_at at 1. cbn [fst snd].
    destruct (first_nodata _ _ _ nodata_val g) eqn:Hf; cbn [orb].
    + subst g1. rewrite IH.
      destruct (existsb (nodata_at dem nodata_val (report_nodata g)) l) eqn:Hex;
        [exfalso|reflexivity].
      apply existsb_exists in Hex as (cr & _ & Hcr).
      unfold nodata_at in Hcr.
      rewrite first_nodata_reported in Hcr; [discriminate|].
      eapply first_nodata_count; eassumption.
    + now subst g1.
Qed.

End GridPass.

(** X8: whether the no-data message appears is decided by the DEM alone:
    a pass over the grid that returns ends with the message reported once
    when some visited cell, or its right or top neighbour, holds the
    no-data height and the counter is still zero, and with untouched
    globals otherwise. *)
Theorem X8_report_iff_nodata_sample (dem : ImageView) (geo : GeoReference)
    (nodata_val : R) (mp : ModelParams) (gp : GlobalParams)
    (image : BilinearInterpT) (camera : CameraModel)
    (g : Globals) (out : ImageView * ImageView) (g' : Globals) :
  computeReflectanceAndIntensity_grid dem geo nodata_val mp gp image camera g
  = (Val out, g') ->
  g' = if existsb (nodata_at dem nodata_val g) (grid_cells dem)
       then report_nodata g else g.
Proof.
  unfold computeReflectanceAndIntensity_grid. intros H.
  eapply grid_loop_globals; [|exact H].
  intros c r Hin. apply grid_cells_In in Hin. lia.
Qed.

Lemma X8_witness :
  let dem := dem_const 2 2 0 in
  computeReflectanceAndIntensity_grid dem geo_flat main_nodata_val
    (overhead 0 0 0) main_global_params (image_const 3 3 0.5)
    (camera_shift 0 0) g_initial
  = (Val (set_pixel (set_size 2 2) 0 0 (1 + 0.501149),
          set_pixel (set_size 2 2) 0 0 0.5), g_initial)
  /\ g_initial
     = if existsb (nodata_at dem main_nodata_val g_initial) (grid_cells dem)
       then report_nodata g_initial else g_initial.
Proof.
  intros dem. split; [apply flat_grid_2x2|].
  exact (X8_report_iff_nodata_sample dem geo_flat main_nodata_val
           (overhead 0 0 0) main_global_params (image_const 3 3 0.5)
           (camera_shift 0 0) g_initial _ g_initial (flat_grid_2x2 g_initial)).
Defined.

(** X9: the two images the pass over the grid returns have the size of the
    DEM, and every pixel the loops do not visit, in particular the whole
    last column and the whole last row, keeps the zero of [set_size]. *)
Theorem X9_grid_output_shape (dem : ImageView) (geo : GeoReference)
    (nodata_val : R) (mp : ModelParams) (gp : GlobalParams)
    (image : BilinearInterpT) (camera : CameraModel)
    (g : Globals) (reflectance intensity : ImageView) (g' : Globals) :
  computeReflectanceAndIntensity_grid dem geo nodata_val mp gp image camera g
  = (Val (reflectance, intensity), g') ->
  cols reflectance = cols dem /\ rows reflectance = rows dem
  /\ cols intensity = cols dem /\ rows intensity = rows dem
  /\ forall col row,
       (col < 0 \/ cols dem - 1 <= col \/ row < 0 \/ rows dem - 1 <= row)%Z ->
       pixel reflectance col row = 0 /\ pixel intensity col row = 0.
Proof.
  unfold computeReflectanceAndIntensity_grid. intros H.
  apply grid_loop_stored in H as (_ & Hout & Hc1 & Hr1 & Hc2 & Hr2).
  cbn [set_size cols rows] in *. repeat split; try assumption;
    destruct (Hout col row) as [E1 E2];
    try (rewrite grid_cells_In; lia); assumption.
Qed.

Lemma X9_witness :
  let out := computeReflectanceAndIntensity_grid (dem_const 2 2 0) geo_flat
               main_nodata_val (overhead 0 0 0) main_global_params
               (image_const 3 3 0.5) (camera_shift 0 0) g_initial in
  exists reflectance intensity,
    out = (Val (reflectance, intensity), g_initial)
    /\ cols reflectance = 2%Z
    /\ pixel reflectance 1 0 = 0.
Proof.
  intros out. eexists _, _. split; [apply flat_grid_2x2|].
  pose proof (X9_grid_output_shape _ _ _ _ _ _ _ _ _ _ _
                (flat_grid_2x2 g_initial)) as (Hc & _ & _ & _ & Hz).
  split; [exact Hc|]. apply (Hz 1%Z 0%Z). cbn. lia.
Defined.

Lemma Rsum_all_equal (c : R) (l : list R) :
  (forall v, In v l -> v = c) -> Rsum l = c * INR (List.length l).
Proof.
  induction l as [|v l IH]; intros H.
  - cbn. lra.
  - change (Rsum (v :: l)) with (v + Rsum l).
    change (List.length (v :: l)) with (S (List.length l)). rewrite S_INR.
    rewrite IH by (intros; apply H; now right).
    rewrite (H v (or_introl eq_refl)). lra.
Qed.

Lemma stats_all_equal (c : R) (l : list R) :
  (forall v, In v l -> v = c) -> l <> [] ->
  mean_of l = c /\ stdev_of l = 0.
Proof.
  intros H Hne.
  assert (Hn : INR (List.length l) <> 0).
  { destruct l; [easy|]. apply not_0_INR. cbn. lia. }
  assert (Hm : mean_of l = c).
  { unfold mean_of. destruct l as [|v l]; [easy|].
    rewrite Rsum_all_equal with (c := c) by exact H. now field. }
  split; [exact Hm|].
  replace (stdev_of l)
    with (sqrt (Rsum (map (fun v => (v - mean_of l) ^ 2) l)
                / INR (List.length l)))
    by (destruct l; [easy|reflexivity]).
  rewrite Rsum_all_equal with (c := 0).
  - rewrite length_map.
    replace (0 * INR (List.length l) / INR (List.length l)) with 0
      by (now field).
    apply sqrt_0.
  - intros w Hw. apply in_map_iff in Hw as (u & <- & Hu).
    rewrite Hm, (H u Hu). ring.
Qed.

Lemma compute_image_stats_all_equal (is_valid : R -> bool) (I : ImageView)
    (c : R) :
  (forall col row, (0 <= col < cols I)%Z -> (0 <= row < rows I)%Z ->
     is_valid (pixel I col row) = true -> pixel I col row = c) ->
  compute_image_stats is_valid I
  = if match valid_values is_valid I with [] => true | _ => false end
    then (0, 0) else (c, 0).
Proof.
  intros H. rewrite compute_image_stats_spec.
  destruct (valid_values is_valid I) as [|v l] eqn:E; [reflexivity|].
  rewrite <- E.
  destruct (stats_all_equal c (valid_values is_valid I)) as [-> ->];
    [|now rewrite E|reflexivity].
  intros w Hw. unfold valid_values, pixel_values in Hw.
  apply filter_In in Hw as [Hw Hv].
  apply in_map_iff in Hw as ([col row] & <- & Hcr).
  apply cells_In in Hcr. cbn [fst snd] in *. now apply H.
Qed.

Lemma compute_image_stats_set_size (is_valid : R -> bool) (c r : Z) :
  compute_image_stats is_valid (set_size c r) = (0, 0).
Proof.
  rewrite (compute_image_stats_all_equal is_valid (set_size c r) 0)
    by reflexivity.
  now destruct (valid_values _ _).
Qed.

(** X10: a DEM with a single column or a single row gives the sampler
    nothing to visit: the pass over the grid returns two all-zero images
    without touching the globals, so both standard deviations are 0 and the
    estimate of the affine parameters, hence main's set-up, divides 0 by 0,
    whatever pixels count as valid. *)
Theorem X10_single_row_or_column (is_valid : R -> bool) (w gs : R)
    (dem : ImageView) (geo : GeoReference)
    (nodata_val : R) (mp : ModelParams) (gp : GlobalParams)
    (image : BilinearInterpT) (camera : CameraModel) (g : Globals) :
  (cols dem <= 1 \/ rows dem <= 1)%Z ->
  computeReflectanceAndIntensity_grid dem geo nodata_val mp gp image camera g
  = (Val (set_size (cols dem) (rows dem), set_size (cols dem) (rows dem)), g)
  /\ estimate_A is_valid dem geo nodata_val mp gp image camera g = (NotReal, g)
  /\ main_setup is_valid w gs dem geo nodata_val mp gp image camera g
     = (NotReal, g).
Proof.
  intros H.
  assert (Hgrid : computeReflectanceAndIntensity_grid dem geo nodata_val mp gp
                    image camera g
                  = (Val (set_size (cols dem) (rows dem),
                          set_size (cols dem) (rows dem)), g)).
  { unfold computeReflectanceAndIntensity_grid.
    now rewrite grid_cells_degenerate. }
  assert (Hest : estimate_A is_valid dem geo nodata_val mp gp image camera g
                 = (NotReal, g)).
  { unfold estimate_A, bind. rewrite Hgrid.
    rewrite compute_image_stats_set_size.
    unfold fdiv. destruct (Req_dec_T 0 0); [reflexivity|easy]. }
  repeat split; try assumption.
  unfold main_setup, bind. now rewrite Hest.
Qed.

Lemma X10_witness :
  (cols (dem_const 1 5 0) <= 1 \/ rows (dem_const 1 5 0) <= 1)%Z
  /\ estimate_A (fun _ => true) (dem_const 1 5 0) geo_flat main_nodata_val
       (overhead 0 0 0) main_global_params (image_const 3 3 0.5)
       (camera_shift 0 0) g_initial
     = (NotReal, g_initial).
Proof.
  assert (H : (cols (dem_const 1 5 0) <= 1 \/ rows (dem_const 1 5 0) <= 1)%Z)
    by (left; cbn; lia).
  split; [exact H|].
  exact (proj1 (proj2 (X10_single_row_or_column (fun _ => true) 1 1
                  (dem_const 1 5 0) geo_flat main_nodata_val (overhead 0 0 0)
                  main_global_params (image_const 3 3 0.5) (camera_shift 0 0)
                  g_initial H))).
Defined.

Lemma ComputeReflectance_failures (normal xyz : Vector3)
    (mp : ModelParams) (gp : GlobalParams) :
  ComputeReflectance normal xyz mp gp <> Thrown
  /\ (ComputeReflectance normal xyz mp gp = NotReal ->
      normalize (vsub (sunPosition mp) xyz) = None
      \/ normalize (vsub (cameraPosition mp) xyz) = None).
Proof.
  unfold ComputeReflectance, computeLunarLambertianReflectanceFromNormal,
    computeLambertianReflectanceFromNormal.
  destruct (reflectanceType gp =? LUNAR_LAMBERT)%Z.
  - destruct (Rgtb _ _); [easy|].
    destruct (normalize (vsub (sunPosition mp) xyz)); [|split; [easy|now left]].
    destruct (Rltb _ 0.3); [easy|].
    destruct (normalize (vsub (cameraPosition mp) xyz));
      [|split; [easy|now right]].
    destruct (Rltb _ 0.0); [easy|].
    destruct (Reqb _ 0); [easy|].
    destruct (Rleb _ 0); easy.
  - destruct (reflectanceType gp =? LAMBERT)%Z; [|easy].
    destruct (normalize (vsub (sunPosition mp) xyz)); [easy|].
    split; [easy|now left].
Qed.

(** X11: the only ways the pass over the grid fails to return.  It raises
    the projection error only when the camera cannot project the point of
    some visited cell; the initial set-up and the callback raise it only
    then too.  It leaves the reals only at a visited cell whose two edge
    vectors have a zero cross product, or whose point coincides with the
    sun or with the camera. *)
Theorem X11_grid_failure_sources (is_valid : R -> bool) (w gs : R) (g_iter : Z)
    (A : R * R) (dem : ImageView) (geo : GeoReference)
    (nodata_val : R) (mp : ModelParams) (gp : GlobalParams)
    (image : BilinearInterpT) (camera : CameraModel) (g : Globals) :
  let visited col row :=
    (0 <= col < cols dem - 1 /\ 0 <= row < rows dem - 1)%Z in
  let base col row := xyz_at geo col row (pixel dem col row) in
  let unprojected :=
    exists col row,
      visited col row /\ point_to_pixel camera (base col row) = None in
  let grid :=
    computeReflectanceAndIntensity_grid dem geo nodata_val mp gp image
      camera g in
  (fst grid = Thrown -> unprojected)
  /\ (fst (main_setup is_valid w gs dem geo nodata_val mp gp image camera g)
      = Thrown -> unprojected)
  /\ (fst (SfsCallback is_valid g_iter dem geo nodata_val A mp gp image
             camera g) = Thrown -> unprojected)
  /\ (fst grid = NotReal ->
      exists col row,
        visited col row
        /\ (normalize
              (cross_prod
                 (vsub (xyz_at geo (col + 1) row (pixel dem (col + 1) row))
                       (base col row))
                 (vsub (xyz_at geo col (row + 1) (pixel dem col (row + 1)))
                       (base col row))) = None
            \/ normalize (vsub (sunPosition mp) (base col row)) = None
            \/ normalize (vsub (cameraPosition mp) (base col row)) = None)).
Proof.
  intros visited base unprojected grid.
  assert (Hcell : forall col row g0,
            In (col, row) (grid_cells dem) ->
            let r := computeReflectanceAndIntensity (pixel dem col row)
                       (pixel dem (col + 1) row) (pixel dem col (row + 1))
                       col row dem geo nodata_val mp gp image camera g0 in
            (fst r = Thrown -> point_to_pixel camera (base col row) = None)
            /\ (fst r = NotReal ->
                normalize
                  (cross_prod
                     (vsub (xyz_at geo (col + 1) row (pixel dem (col + 1) row))
                           (base col row))
                     (vsub (xyz_at geo col (row + 1) (pixel dem col (row + 1)))
                           (base col row))) = None
                \/ normalize (vsub (sunPosition mp) (base col row)) = None
                \/ normalize (vsub (cameraPosition mp) (base col row)) = None)).
  { intros col row g0 _ r. unfold r. rewrite cell_unfold.
    destruct (_ || _)%bool; [easy|].
    destruct (first_nodata _ _ _ _ _); [easy|].
    cbn [fst]. unfold shade_and_sample. fold (base col row).
    destruct (normalize (cross_prod _ _)) as [n|]; [|split; [easy|now left]].
    destruct (ComputeReflectance_failures (vneg n) (base col row) mp gp)
      as [Hnt Hnr].
    destruct (ComputeReflectance _ _ _ _) as [[rf a]| | |]; try easy.
    - destruct (point_to_pixel camera (base col row)); easy.
    - split; [easy|]. intros _. right. now apply Hnr. }
  assert (Hloop : forall o : res (ImageView * ImageView),
            (forall v, o <> Val v) -> fst grid = o ->
            exists col row g0 R0 I0,
              In (col, row) (grid_cells dem)
              /\ fst (grid_body dem geo nodata_val mp gp image camera
                        (col, row) (R0, I0) g0) = o).
  { intros o Ho E. unfold grid, computeReflectanceAndIntensity_grid in E.
    destruct (for_each_failure
                (grid_body dem geo nodata_val mp gp image camera)
                (grid_cells dem)
                (set_size (cols dem) (rows dem), set_size (cols dem) (rows dem))
                g)
      as ([col row] & [R0 I0] & g0 & Hin & Hb).
    - rewrite E. exact Ho.
    - exists col, row, g0, R0, I0. split; [exact Hin|].
      now rewrite Hb, E. }
  assert (Hthrown : fst grid = Thrown -> unprojected).
  { intros E. destruct (Hloop Thrown) as (col & row & g0 & R0 & I0 & Hin & Hb);
      [easy|exact E|].
    exists col, row. split; [now apply grid_cells_In|].
    apply (proj1 (Hcell col row g0 Hin)).
    now apply (grid_body_outcome dem geo nodata_val mp gp image camera
                 col row R0 I0 g0). }
  split; [exact Hthrown|]. split; [|split].
  - intros E. apply Hthrown.
    unfold main_setup, estimate_A, bind, ret, lift in E. fold grid in E.
    destruct grid as [[[Rf If]| | |] g1]; cbn [fst] in *; try easy.
    destruct (compute_image_stats is_valid If) as [im isd].
    destruct (compute_image_stats is_valid Rf) as [rm rsd].
    destruct (fdiv isd rsd); easy.
  - intros E. apply Hthrown.
    unfold SfsCallback, bind, ret in E. fold grid in E.
    destruct grid as [[[Rf If]| | |] g1]; cbn [fst] in *; easy.
  - intros E.
    destruct (Hloop NotReal) as (col & row & g0 & R0 & I0 & Hin & Hb);
      [easy|exact E|].
    exists col, row. split; [now apply grid_cells_In|].
    apply (proj2 (Hcell col row g0 Hin)).
    now apply (grid_body_outcome dem geo nodata_val mp gp image camera
                 col row R0 I0 g0).
Qed.

(** ** Image statistics *)



Lemma Rsum_affine (a b : R) (l : list R) :
  Rsum (map (fun v => a * v + b) l) = a * Rsum l + b * INR (List.length l).
Proof.
  induction l as [|v l IH].
  - cbn. lra.
  - change (Rsum (map (fun v => a * v + b) (v :: l)))
      with (a * v + b + Rsum (map (fun v => a * v + b) l)).
    change (Rsum (v :: l)) with (v + Rsum l).
    change (List.length (v :: l)) with (S (List.length l)).
    rewrite S_INR, IH. lra.
Qed.

Lemma Rsum_scale (a : R) (f : R -> R) (l : list R) :
  Rsum (map (fun v => a * f v) l) = a * Rsum (map f l).
Proof.
  induction l as [|v l IH].
  - cbn. lra.
  - change (Rsum (map (fun v => a * f v) (v :: l)))
      with (a * f v + Rsum (map (fun v => a * f v) l)).
    change (Rsum (map f (v :: l))) with (f v + Rsum (map f l)).
    rewrite IH. lra.
Qed.

Lemma stats_affine (a b : R) (l : list R) :
  l <> [] ->
  mean_of (map (fun v => a * v + b) l) = a * mean_of l + b
  /\ stdev_of (map (fun v => a * v + b) l) = Rabs a * stdev_of l.
Proof.
  intros Hne.
  assert (Hn : INR (List.length l) <> 0).
  { destruct l; [easy|]. apply not_0_INR. cbn. lia. }
  assert (Hpos : 0 < INR (List.length l)).
  { destruct l; [easy|]. apply lt_0_INR. cbn. lia. }
  assert (Hm : mean_of (map (fun v => a * v + b) l) = a * mean_of l + b).
  { replace (mean_of (map (fun v => a * v + b) l))
      with (Rsum (map (fun v => a * v + b) l)
            / INR (List.length (map (fun v => a * v + b) l)))
      by (destruct l; [easy|reflexivity]).
    replace (mean_of l) with (Rsum l / INR (List.length l))
      by (destruct l; [easy|reflexivity]).
    rewrite length_map, Rsum_affine. now field. }
  split; [exact Hm|].
  replace (stdev_of (map (fun v => a * v + b) l))
    with (sqrt (Rsum (map (fun v => (v - mean_of (map (fun v => a * v + b) l)) ^ 2)
                          (map (fun v => a * v + b) l))
                / INR (List.length (map (fun v => a * v + b) l))))
    by (destruct l; [easy|reflexivity]).
  replace (stdev_of l)
    with (sqrt (Rsum (map (fun v => (v - mean_of l) ^ 2) l)
                / INR (List.length l)))
    by (destruct l; [easy|reflexivity]).
  rewrite Hm, length_map, map_map.
  rewrite (map_ext (fun v => (a * v + b - (a * mean_of l + b)) ^ 2)
                   (fun v => a ^ 2 * (v - mean_of l) ^ 2))
    by (intros; ring).
  rewrite (Rsum_scale (a ^ 2) (fun v => (v - mean_of l) ^ 2)).
  replace (a ^ 2 * Rsum (map (fun v => (v - mean_of l) ^ 2) l)
           / INR (List.length l))
    with (Rsqr a * (Rsum (map (fun v => (v - mean_of l) ^ 2) l)
                    / INR (List.length l)))
    by (unfold Rsqr; now field).
  rewrite sqrt_mult_alt by apply Rle_0_sqr.
  now rewrite sqrt_Rsqr_abs.
Qed.

Lemma filter_map_commute (is_valid : R -> bool) (f : R -> R) (l : list R) :
  (forall v, is_valid (f v) = is_valid v) ->
  filter is_valid (map f l) = map f (filter is_valid l).
Proof.
  intros H. induction l as [|v l IH]; [reflexivity|].
  cbn [map filter]. rewrite H. destruct (is_valid v); cbn [map]; now rewrite IH.
Qed.

Lemma simulated_intensity_stats (is_valid : R -> bool) (A : R * R)
    (reflectance : ImageView) :
  (forall v, is_valid (fst A * v + snd A) = is_valid v) ->
  valid_values is_valid reflectance <> [] ->
  compute_image_stats is_valid (simulated_intensity A reflectance)
  = (fst A * fst (compute_image_stats is_valid reflectance) + snd A,
     Rabs (fst A) * snd (compute_image_stats is_valid reflectance)).
Proof.
  intros Hv Hne. rewrite !compute_image_stats_spec. cbn [fst snd].
  unfold valid_values at 1 2. rewrite simulated_intensity_values.
  rewrite filter_map_commute by exact Hv.
  fold (valid_values is_valid reflectance).
  destruct (stats_affine (fst A) (snd A) (valid_values is_valid reflectance) Hne)
    as [-> ->].
  reflexivity.
Qed.

(** X13: how the statistics follow the callback's affine map: with a
    validity test that the map [r => A0 * r + A1] respects and at least one
    valid pixel, the mean of the simulated intensity is [A0 * mean + A1]
    and its standard deviation [|A0| * stdev] of the reflectance's. *)
Theorem X13_stats_of_simulated_intensity (is_valid : R -> bool) (A : R * R)
    (reflectance : ImageView) :
  (forall v, is_valid (fst A * v + snd A) = is_valid v) ->
  valid_values is_valid reflectance <> [] ->
  compute_image_stats is_valid (simulated_intensity A reflectance)
  = (fst A * fst (compute_image_stats is_valid reflectance) + snd A,
     Rabs (fst A) * snd (compute_image_stats is_valid reflectance)).
Proof. apply simulated_intensity_stats. Qed.

Lemma X13_witness :
  compute_image_stats (fun _ => true)
    (simulated_intensity (-2, 3) (dem_const 1 2 7))
  = (-2 * fst (compute_image_stats (fun _ => true) (dem_const 1 2 7)) + 3,
     Rabs (-2) * snd (compute_image_stats (fun _ => true) (dem_const 1 2 7))).
Proof.
  apply (X13_stats_of_simulated_intensity (fun _ => true) (-2, 3)
           (dem_const 1 2 7)).
  - reflexivity.
  - discriminate.
Defined.

Lemma stdev_of_nonneg (l : list R) : 0 <= stdev_of l.
Proof.
  unfold stdev_of. destruct l; [lra|]. apply sqrt_pos.
Qed.

(** X14: the initial estimate matches the first two moments: when
    estimate_A returns the pair [A], the intensity simulated with [A] from
    the reflectance of the same pass has exactly the mean and the standard
    deviation of the measured intensity (for a validity test the affine
    map respects, as the one of plain floats, which accepts everything). *)
Theorem X14_estimate_matches_moments (is_valid : R -> bool)
    (dem : ImageView) (geo : GeoReference) (nodata_val : R)
    (mp : ModelParams) (gp : GlobalParams)
    (image : BilinearInterpT) (camera : CameraModel)
    (g : Globals) (reflectance intensity : ImageView) (A : R * R)
    (g' : Globals) :
  computeReflectanceAndIntensity_grid dem geo nodata_val mp gp image camera g
  = (Val (reflectance, intensity), g') ->
  estimate_A is_valid dem geo nodata_val mp gp image camera g = (Val A, g') ->
  (forall v, is_valid (fst A * v + snd A) = is_valid v) ->
  compute_image_stats is_valid (simulated_intensity A reflectance)
  = compute_image_stats is_valid intensity.
Proof.
  intros Hgrid Hest Hv.
  unfold estimate_A, bind, ret, lift in Hest. rewrite Hgrid in Hest.
  assert (Hsd : 0 <= snd (compute_image_stats is_valid intensity)
                /\ 0 <= snd (compute_image_stats is_valid reflectance)).
  { rewrite !compute_image_stats_spec. split; apply stdev_of_nonneg. }
  assert (Hz : valid_values is_valid reflectance = [] ->
               snd (compute_image_stats is_valid reflectance) = 0).
  { intros E. rewrite compute_image_stats_spec, E. reflexivity. }
  rewrite simulated_intensity_stats; [|exact Hv|].
  - destruct (compute_image_stats is_valid intensity) as [im isd].
    destruct (compute_image_stats is_valid reflectance) as [rm rsd].
    cbn [fst snd] in *. unfold fdiv in Hest.
    destruct (Req_dec_T rsd 0) as [E|Hne]; [discriminate|].
    injection Hest as <-. cbn [fst snd].
    assert (H0 : 0 <= isd / rsd).
    { apply Rmult_le_pos; [lra|].
      apply Rlt_le, Rinv_0_lt_compat. lra. }
    rewrite (Rabs_pos_eq _ H0). f_equal; now field.
  - intros E. specialize (Hz E).
    destruct (compute_image_stats is_valid intensity) as [im isd].
    destruct (compute_image_stats is_valid reflectance) as [rm rsd].
    cbn [snd] in Hz. subst rsd. unfold fdiv in Hest.
    destruct (Req_dec_T 0 0); [discriminate|easy].
Qed.

Lemma X14_witness :
  exists A,
    estimate_A (fun _ => true) (dem_const 2 2 0) geo_flat main_nodata_val
      (overhead 0 0 0) main_global_params (image_const 3 3 0.5)
      (camera_shift 0 0) g_initial = (Val A, g_initial)
    /\ compute_image_stats (fun _ => true)
         (simulated_intensity A (set_pixel (set_size 2 2) 0 0 (1 + 0.501149)))
       = compute_image_stats (fun _ => true)
           (set_pixel (set_size 2 2) 0 0 0.5).
Proof.
  assert (Hs : stdev_of [1 + 0.501149; 0; 0; 0] <> 0)
    by (apply stdev_of_one_sample; lra).
  assert (Hest : exists A,
            estimate_A (fun _ => true) (dem_const 2 2 0) geo_flat
              main_nodata_val (overhead 0 0 0) main_global_params
              (image_const 3 3 0.5) (camera_shift 0 0) g_initial
            = (Val A, g_initial)).
  { unfold estimate_A, bind, ret, lift. rewrite flat_grid_2x2.
    rewrite !compute_image_stats_spec.
    change (valid_values (fun _ => true)
              (set_pixel (set_size 2 2) 0 0 (1 + 0.501149)))
      with [1 + 0.501149; 0; 0; 0].
    unfold fdiv. destruct (Req_dec_T _ 0) as [E|_]; [now apply Hs in E|].
    eexists. reflexivity. }
  destruct Hest as [A HA]. exists A. split; [exact HA|].
  exact (X14_estimate_matches_moments (fun _ => true) (dem_const 2 2 0)
           geo_flat main_nodata_val (overhead 0 0 0) main_global_params
           (image_const 3 3 0.5) (camera_shift 0 0) g_initial _ _ A g_initial
           (flat_grid_2x2 g_initial) HA (fun _ => eq_refl)).
Defined.

(** ** The smoothness residual *)

(** X15: the smoothness residual sees curvature only: adding any plane
    [a + sx * x + sy * y] to the nine heights changes none of the four
    components, whatever the weight and the grid size. *)
Theorem X15_smoothness_ignores_planes (f : SmoothnessError)
    (nb : Neighborhood) (a sx sy : R) :
  SmoothnessError_call f (nb_add nb (plane a sx sy)) = SmoothnessError_call f nb.
Proof.
  unfold SmoothnessError_call, nb_add, plane.
  cbn [tl top tr left center right bl bottom br].
  replace (left nb + (a - sx) + (right nb + (a + sx)) - 2 * (center nb + a))
    with (left nb + right nb - 2 * center nb) by ring.
  replace (tr nb + (a + sx + sy) + (bl nb + (a - sx - sy))
           - (tl nb + (a - sx + sy)) - (br nb + (a + sx - sy)))
    with (tr nb + bl nb - tl nb - br nb) by ring.
  replace (top nb + (a + sy) + (bottom nb + (a - sy)) - 2 * (center nb + a))
    with (top nb + bottom nb - 2 * center nb) by ring.
  reflexivity.
Qed.

(** ** The assembled problem *)

Lemma residual_blocks_set (bs : list ParameterBlock) (p : Problem) :
  residual_blocks (fold_left (fun p b => SetParameterBlockConstant b p) bs p)
  = residual_blocks p.
Proof.
  revert p. induction bs as [|b bs IH]; intros p; [reflexivity|].
  cbn [fold_left]. now rewrite IH.
Qed.

Lemma residual_blocks_loop (create : Z -> Z -> IntensityError) (w gs : R)
    (ncols nrows : Z) (cells : list (Z * Z)) (p : Problem) :
  residual_blocks (fold_left (assemble_cell create w gs ncols nrows) cells p)
  = residual_blocks p ++ flat_map (cell_blocks create w gs) cells.
Proof.
  revert p. induction cells as [|[col row] cells IH]; intros p.
  - cbn. now rewrite app_nil_r.
  - cbn [fold_left flat_map]. rewrite IH. unfold assemble_cell.
    rewrite residual_blocks_set. unfold AddResidualBlock.
    cbn [residual_blocks cell_blocks fst snd].
    now rewrite <- !app_assoc.
Qed.

Lemma residual_blocks_assemble (create : Z -> Z -> IntensityError) (w gs : R)
    (ncols nrows : Z) :
  residual_blocks (assemble create w gs ncols nrows)
  = flat_map (cell_blocks create w gs) (interior_cells ncols nrows).
Proof.
  unfold assemble. cbn [SetParameterBlockConstant residual_blocks].
  now rewrite residual_blocks_loop.
Qed.

Lemma Zrange_length (lo hi : Z) : List.length (Zrange lo hi) = Z.to_nat (hi - lo).
Proof. unfold Zrange. now rewrite length_map, length_seq. Qed.

Lemma cells_length (c0 c1 r0 r1 : Z) :
  List.length
    (flat_map (fun col => map (fun row => (col, row)) (Zrange r0 r1))
              (Zrange c0 c1))
  = (Z.to_nat (c1 - c0) * Z.to_nat (r1 - r0))%nat.
Proof.
  rewrite <- (Zrange_length c0 c1).
  induction (Zrange c0 c1) as [|c l IH]; [reflexivity|].
  cbn [flat_map]. rewrite length_app, IH, length_map, Zrange_length.
  cbn [List.length]. lia.
Qed.

(** X17: the problem main assembles holds, for every interior grid point
    in loop order, one intensity block on A and the nine heights around the
    point followed by one smoothness block on the same nine heights, and
    nothing else: 2 (ncols - 2) (nrows - 2) residual blocks, none on a grid
    with fewer than three columns or rows. *)
Theorem X17_residual_blocks (create : Z -> Z -> IntensityError)
    (w gs : R) (ncols nrows : Z) :
  let problem := assemble create w gs ncols nrows in
  residual_blocks problem
  = flat_map (cell_blocks create w gs) (interior_cells ncols nrows)
  /\ List.length (residual_blocks problem)
     = (2 * (Z.to_nat (ncols - 2) * Z.to_nat (nrows - 2)))%nat
  /\ ((ncols < 3 \/ nrows < 3)%Z -> residual_blocks problem = []).
Proof.
  intros problem. unfold problem. rewrite residual_blocks_assemble.
  assert (Hlen : List.length
                   (flat_map (cell_blocks create w gs)
                             (interior_cells ncols nrows))
                 = (2 * (Z.to_nat (ncols - 2) * Z.to_nat (nrows - 2)))%nat).
  { replace (Z.to_nat (ncols - 2)) with (Z.to_nat (ncols - 1 - 1)) by lia.
    replace (Z.to_nat (nrows - 2)) with (Z.to_nat (nrows - 1 - 1)) by lia.
    unfold interior_cells. rewrite <- cells_length.
    induction (flat_map _ (Zrange 1 (ncols - 1))) as [|cr l IH];
      [reflexivity|].
    cbn [flat_map cell_blocks app List.length]. rewrite IH. lia. }
  split; [reflexivity|]. split; [exact Hlen|].
  intros Hsmall.
  destruct (flat_map (cell_blocks create w gs) (interior_cells ncols nrows));
    [reflexivity|].
  cbn [List.length] in Hlen. lia.
Qed.

(** X18: every parameter block the assembled problem refers to, in a
    residual block or as a constant, is the array A or the address of a
    height inside the DEM: the nine-point stencils of the interior points
    never reach outside the grid. *)
Theorem X18_blocks_inside_grid (create : Z -> Z -> IntensityError)
    (w gs : R) (ncols nrows : Z) :
  let problem := assemble create w gs ncols nrows in
  (forall cost blocks b,
     In (cost, blocks) (residual_blocks problem) -> In b blocks ->
     block_in_grid ncols nrows b)
  /\ (forall b, In b (constant_blocks problem) -> block_in_grid ncols nrows b).
Proof.
  intros problem.
  assert (Hnb : forall col row b,
            In (col, row) (interior_cells ncols nrows) ->
            In b (neighborhood_blocks col row) -> block_in_grid ncols nrows b).
  { intros col row b Hin Hb. apply cells_In in Hin.
    cbn [neighborhood_blocks In] in Hb.
    repeat (destruct Hb as [<-|Hb]; [cbn; lia|]). destruct Hb. }
  split.
  - intros cost blocks b Hin Hb. unfold problem in Hin.
    rewrite residual_blocks_assemble in Hin.
    apply in_flat_map in Hin as ([col row] & Hcr & Hin).
    cbn [cell_blocks In fst snd] in Hin.
    destruct Hin as [E|[E|[]]]; injection E as _ <-.
    + destruct Hb as [<-|Hb]; [exact I|]. now apply (Hnb col row).
    + now apply (Hnb col row).
  - intros b Hb. unfold problem, assemble in Hb.
    cbn [SetParameterBlockConstant constant_blocks In] in Hb.
    destruct Hb as [<-|Hb]; [exact I|].
    apply constant_blocks_loop in Hb as [([col row] & Hcr & Hb)|[]].
    cbn [fst snd] in Hb. apply (Hnb col row); [exact Hcr|].
    unfold boundary_blocks in Hb. cbn [neighborhood_blocks In].
    repeat (apply in_app_or in Hb as [Hb|Hb]);
      match type of Hb with
      | In _ (if ?c then _ else _) => destruct c; cbn [In] in Hb
      end; tauto.
Qed.

(** X19: what is set constant is in the problem.  On a grid of at least
    3 x 3 every block main sets constant is a parameter of some residual
    block added before; on a smaller grid there is no residual block at
    all and A is set constant all the same. *)
Theorem X19_constant_blocks_are_parameters
    (create : Z -> Z -> IntensityError) (w gs : R) (ncols nrows : Z) :
  let problem := assemble create w gs ncols nrows in
  ((3 <= ncols)%Z -> (3 <= nrows)%Z ->
   forall b, In b (constant_blocks problem) ->
     exists cost blocks,
       In (cost, blocks) (residual_blocks problem) /\ In b blocks)
  /\ ((ncols < 3 \/ nrows < 3)%Z ->
      residual_blocks problem = [] /\ constant_blocks problem = [Block_A]).
Proof.
  intros problem. split.
  - intros Hc Hr b Hb. unfold problem in *.
    rewrite residual_blocks_assemble. unfold assemble in Hb.
    cbn [SetParameterBlockConstant constant_blocks In] in Hb.
    destruct Hb as [<-|Hb].
    + exists (Cost_IntensityError (create 1%Z 1%Z)),
             (Block_A :: neighborhood_blocks 1 1).
      split; [|now left].
      apply in_flat_map. exists (1, 1)%Z. split; [|now left].
      unfold interior_cells. apply cells_In. lia.
    + apply constant_blocks_loop in Hb as [([col row] & Hcr & Hb)|[]].
      cbn [fst snd] in Hb.
      exists (Cost_SmoothnessError (mkSmoothnessError w gs)),
             (neighborhood_blocks col row).
      split.
      * apply in_flat_map. exists (col, row). split; [exact Hcr|].
        right. now left.
      * unfold boundary_blocks in Hb. cbn [neighborhood_blocks In].
        repeat (apply in_app_or in Hb as [Hb|Hb]);
          match type of Hb with
          | In _ (if ?c then _ else _) => destruct c; cbn [In] in Hb
          end; tauto.
  - intros Hsmall.
    assert (Hcells : interior_cells ncols nrows = []).
    { destruct (interior_cells ncols nrows) as [|[c r] l] eqn:E; [reflexivity|].
      assert (Hin : In (c, r) (interior_cells ncols nrows))
        by (rewrite E; now left).
      apply cells_In in Hin. lia. }
    unfold problem, assemble. rewrite Hcells. split; reflexivity.
Qed.

(** X20: the intensity functors main creates are evaluated inside the
    grid: every intensity block of the problem assembled on main's DEM
    belongs to an interior point of that DEM, so the functor's test for the
    last column and the last row never fires, and its parameter blocks are
    A and the nine heights around its own point. *)
Theorem X20_intensity_blocks_interior (w gs : R)
    (dem : ImageView) (geo : GeoReference) (nodata_val : R)
    (mp : ModelParams) (gp : GlobalParams)
    (image : BilinearInterpT) (camera : CameraModel)
    (f : IntensityError) (blocks : list ParameterBlock) :
  In (Cost_IntensityError f, blocks)
     (residual_blocks
        (assemble
           (fun col row =>
              mkIntensityError col row dem geo gp mp image camera nodata_val)
           w gs (cols dem) (rows dem))) ->
  m_dem f = dem
  /\ (1 <= m_col f < cols dem - 1)%Z /\ (1 <= m_row f < rows dem - 1)%Z
  /\ ((m_col f >=? cols (m_dem f) - 1) || (m_row f >=? rows (m_dem f) - 1))%Z
     = false
  /\ blocks = Block_A :: neighborhood_blocks (m_col f) (m_row f).
Proof.
  intros Hin.
  rewrite residual_blocks_assemble in Hin.
  apply in_flat_map in Hin as ([col row] & Hcr & Hin).
  apply cells_In in Hcr.
  cbn [cell_blocks In fst snd] in Hin.
  destruct Hin as [E|[E|[]]]; [|discriminate].
  injection E as <- <-. cbn [m_dem m_col m_row].
  repeat split; lia.
Qed.

Lemma X20_witness :
  let dem := dem_const 3 3 0 in
  let f := mkIntensityError 1 1 dem geo_flat main_global_params
             (overhead 1 1 0) (image_const 3 3 0.5) (camera_shift 0 0)
             main_nodata_val in
  In (Cost_IntensityError f, Block_A :: neighborhood_blocks 1 1)
     (residual_blocks
        (assemble
           (fun col row =>
              mkIntensityError col row dem geo_flat main_global_params
                (overhead 1 1 0) (image_const 3 3 0.5) (camera_shift 0 0)
                main_nodata_val)
           1 1 (cols dem) (rows dem)))
  /\ (1 <= m_col f < cols dem - 1)%Z.
Proof.
  intros dem f.
  assert (Hin : In (Cost_IntensityError f, Block_A :: neighborhood_blocks 1 1)
                  (residual_blocks
                     (assemble
                        (fun col row =>
                           mkIntensityError col row dem geo_flat
                             main_global_params (overhead 1 1 0)
                             (image_const 3 3 0.5) (camera_shift 0 0)
                             main_nodata_val)
                        1 1 (cols dem) (rows dem))))
    by (left; reflexivity).
  split; [exact Hin|].
  exact (proj1 (proj2 (X20_intensity_blocks_interior 1 1 dem geo_flat
                         main_nodata_val (overhead 1 1 0) main_global_params
                         (image_const 3 3 0.5) (camera_shift 0 0) f _ Hin))).
Defined.

(** ** main: the grid size *)

Lemma norm_2_V2_scaled (s x y u v : R) :
  0 <= s -> u * u = s * s * (x * x) -> v * v = s * s * (y * y) ->
  norm_2_V2 (mkV2 u v) = s * norm_2_V2 (mkV2 x y).
Proof.
  intros Hs Hu Hv. unfold norm_2_V2. cbn [v2_0 v2_1].
  rewrite Hu, Hv.
  replace (s * s * (x * x) + s * s * (y * y))
    with (Rsqr s * (x * x + y * y)) by (unfold Rsqr; ring).
  rewrite sqrt_mult_alt by apply Rle_0_sqr.
  now rewrite sqrt_Rsqr.
Qed.

(** X21: for a geo-reference that maps pixels to points with steps of the
    same magnitude [s] along both axes (either sign, any origin), the grid
    size main computes from the two corners of a DEM is [s]; on a DEM of a
    single pixel the quotient is 0/0 for every geo-reference. *)
Theorem X21_grid_size_of_square_pixels (ox oy sx sy s : R) (ncols nrows : Z)
    (pixel_to_point : Vector2 -> Vector2) :
  0 <= s -> Rabs sx = s -> Rabs sy = s ->
  (ncols <> 1 \/ nrows <> 1)%Z ->
  main_grid_size
    (fun p => mkV2 (ox + sx * v2_0 p) (oy + sy * v2_1 p)) ncols nrows = Some s
  /\ main_grid_size pixel_to_point 1 1 = None.
Proof.
  intros Hs Hx Hy Hn. split.
  - unfold main_grid_size. cbn [v2_0 v2_1].
    set (x := IZR (ncols - 1)). set (y := IZR (nrows - 1)).
    assert (Hsx : sx * sx = s * s)
      by (rewrite <- Hx; unfold Rabs; destruct (Rcase_abs sx); ring).
    assert (Hsy : sy * sy = s * s)
      by (rewrite <- Hy; unfold Rabs; destruct (Rcase_abs sy); ring).
    rewrite (norm_2_V2_scaled s x y) by (try exact Hs; nra).
    assert (Hxy : x <> 0 \/ y <> 0).
    { destruct Hn as [H|H]; [left|right]; apply not_0_IZR; lia. }
    assert (Hpos : 0 < x * x + y * y) by (destruct Hxy; nra).
    assert (Hd : norm_2_V2 (mkV2 x y) <> 0).
    { unfold norm_2_V2. cbn [v2_0 v2_1].
      pose proof (sqrt_lt_R0 _ Hpos). lra. }
    rewrite fdiv_some by exact Hd. f_equal. now field.
  - unfold main_grid_size. cbn [v2_0 v2_1].
    change (IZR (1 - 1)) with 0.
    replace (norm_2_V2 (mkV2 0 0)) with 0; [apply fdiv_none|].
    unfold norm_2_V2. cbn [v2_0 v2_1].
    replace (0 * 0 + 0 * 0) with 0 by ring. symmetry. apply sqrt_0.
Qed.

Lemma X21_witness :
  0 <= 0.25 /\ Rabs 0.25 = 0.25 /\ Rabs (- 0.25) = 0.25
  /\ main_grid_size
       (fun p => mkV2 (10 + 0.25 * v2_0 p) (20 + - 0.25 * v2_1 p)) 5 3
     = Some 0.25.
Proof.
  assert (H0 : 0 <= 0.25) by lra.
  assert (H1 : Rabs 0.25 = 0.25) by (apply Rabs_pos_eq; lra).
  assert (H2 : Rabs (- 0.25) = 0.25)
    by (unfold Rabs; destruct (Rcase_abs (- 0.25)); lra).
  assert (H3 : (5 <> 1 \/ 3 <> 1)%Z) by (left; lia).
  repeat split; try assumption.
  exact (proj1 (X21_grid_size_of_square_pixels 10 20 0.25 (- 0.25) 0.25 5 3
                  (fun p => p) H0 H1 H2 H3)).
Defined.

(** ** handle_arguments *)

(** X22: handle_arguments accepts the parsed options exactly when the DEM
    name and the output prefix are not empty, the iteration count is not
    negative (0 is accepted) and at least one image is given; the
    smoothness weight is not examined, and of several faults the one
    tested first is the one reported. *)
Theorem X22_handle_arguments_accepts (opt : Options) :
  (handle_arguments opt = None
   <-> input_dem opt <> EmptyString /\ out_prefix opt <> EmptyString
       /\ (0 <= max_iterations opt)%Z /\ input_images opt <> [])
  /\ (forall weight,
        handle_arguments
          (mkOptions (input_dem opt) (out_prefix opt) (input_images opt)
                     (max_iterations opt) weight)
        = handle_arguments opt)
  /\ (input_dem opt = EmptyString ->
      handle_arguments opt = Some "Missing input DEM."%string)
  /\ (input_dem opt <> EmptyString -> out_prefix opt = EmptyString ->
      handle_arguments opt = Some "Missing output prefix."%string)
  /\ (input_dem opt <> EmptyString -> out_prefix opt <> EmptyString ->
      (max_iterations opt < 0)%Z ->
      handle_arguments opt
      = Some "The number of iterations must be non-negative."%string).
Proof.
  unfold handle_arguments. cbn [input_dem out_prefix input_images max_iterations].
  destruct (String.eqb_spec (input_dem opt) EmptyString) as [Ed|Ed];
  destruct (String.eqb_spec (out_prefix opt) EmptyString) as [Ep|Ep];
  destruct (Z.ltb_spec (max_iterations opt) 0) as [Hm|Hm];
  destruct (input_images opt) as [|im ims];
    repeat split; intros; try easy; try tauto; try lia.
Qed.

(** ** ReadSunOrSpacecraftPosition *)

Lemma has_key_In (key : string) (records : list (string * Vector3)) :
  has_key key records = true <-> In key (map fst records).
Proof.
  unfold has_key. rewrite existsb_exists, in_map_iff. split.
  - intros (kv & Hin & E). apply String.eqb_eq in E. now exists kv.
  - intros (kv & E & Hin). exists kv. split; [exact Hin|].
    now apply String.eqb_eq.
Qed.

Lemma find_record_In (key : string) (val : Vector3)
    (records : list (string * Vector3)) :
  NoDup (map fst records) -> In (key, val) records ->
  find_record key records = Some val.
Proof.
  induction records as [|[k v] rest IH]; intros Hnd Hin; [destruct Hin|].
  cbn [map fst] in Hnd. apply NoDup_cons_iff in Hnd as [Hk Hnd].
  cbn [find_record]. destruct Hin as [E|Hin].
  - injection E as -> ->. now rewrite String.eqb_refl.
  - destruct (String.eqb_spec key k) as [->|_]; [|now apply IH].
    exfalso. apply Hk. apply in_map_iff. now exists (k, val).
Qed.

Lemma read_records_val (parse : string -> option (string * Vector3))
    (lines : list string) :
  forall acc records,
  read_records parse lines acc = Val records ->
  records = rev (parsed_records parse lines) ++ acc
  /\ Forall (readable parse) lines
  /\ (NoDup (map fst acc) -> NoDup (map fst records)).
Proof.
  induction lines as [|line rest IH]; intros acc records H.
  - cbn in H. injection H as <-. cbn. repeat split; [constructor|easy].
  - cbn [read_records] in H. cbn [parsed_records flat_map].
    fold (parsed_records parse rest).
    destruct (String.eqb_spec line EmptyString) as [E|E].
    + destruct (IH _ _ H) as (-> & Hf & Hnd). cbn [app].
      repeat split; [|exact Hnd]. constructor; [now left|exact Hf].
    + destruct (parse line) as [[key val]|] eqn:Hp; [|discriminate].
      destruct (has_key key acc) eqn:Hk; [discriminate|].
      destruct (IH _ _ H) as (-> & Hf & Hnd).
      cbn [app rev]. rewrite <- app_assoc. cbn [app].
      repeat split.
      * constructor; [right; now exists (key, val)|exact Hf].
      * intros Hacc. apply Hnd. cbn [map fst]. constructor; [|exact Hacc].
        intros Hin. apply has_key_In in Hin. congruence.
Qed.

Lemma read_records_ok (parse : string -> option (string * Vector3))
    (lines : list string) :
  forall acc,
  Forall (readable parse) lines ->
  NoDup (map fst (rev (parsed_records parse lines) ++ acc)) ->
  read_records parse lines acc
  = Val (rev (parsed_records parse lines) ++ acc).
Proof.
  induction lines as [|line rest IH]; intros acc Hf Hnd; [reflexivity|].
  apply Forall_cons_iff in Hf as [Hl Hf].
  cbn [read_records]. cbn [parsed_records flat_map] in *.
  fold (parsed_records parse rest) in *.
  destruct (String.eqb_spec line EmptyString) as [E|E].
  - cbn [app] in *. now apply IH.
  - destruct Hl as [Hl|[[key val] Hp]]; [contradiction|].
    rewrite Hp in *. cbn [app rev] in *.
    rewrite <- app_assoc in *. cbn [app] in *.
    assert (Hk : has_key key acc = false).
    { destruct (has_key key acc) eqn:Hk; [|reflexivity].
      apply has_key_In in Hk. rewrite map_app in Hnd. cbn [map fst] in Hnd.
      apply NoDup_remove_2 in Hnd. exfalso. apply Hnd.
      apply in_or_app. now right. }
    rewrite Hk. now apply IH.
Qed.

Lemma read_records_outcome (parse : string -> option (string * Vector3))
    (lines : list string) :
  forall acc,
  (exists records, read_records parse lines acc = Val records)
  \/ read_records parse lines acc = Exited.
Proof.
  induction lines as [|line rest IH]; intros acc; cbn [read_records].
  - left. now eexists.
  - destruct (String.eqb line EmptyString); [apply IH|].
    destruct (parse line) as [[key val]|]; [|now right].
    destruct (has_key key acc); [now right|apply IH].
Qed.

(** X23: what a successful read delivers.  The records are exactly the
    entries the non-blank lines parse to (whatever the map held before is
    gone), no key occurs twice, and looking up the key of any non-blank
    line of the file finds the position read on that line. *)
Theorem X23_read_positions_success
    (parse : string -> option (string * Vector3))
    (lines : list string) (old records : list (string * Vector3)) :
  ReadSunOrSpacecraftPosition parse (Some lines) old = Val records ->
  records = rev (parsed_records parse lines)
  /\ NoDup (map fst records)
  /\ forall line, In line lines -> line <> EmptyString ->
       exists key val,
         parse line = Some (key, val) /\ find_record key records = Some val.
Proof.
  unfold ReadSunOrSpacecraftPosition. intros H.
  apply read_records_val in H as (Hr & Hf & Hnd).
  rewrite app_nil_r in Hr. specialize (Hnd (NoDup_nil _)).
  repeat split; [exact Hr|exact Hnd|].
  intros line Hin Hne.
  rewrite Forall_forall in Hf.
  destruct (Hf line Hin) as [E|[[key val] Hp]]; [contradiction|].
  exists key, val. split; [exact Hp|].
  apply find_record_In; [exact Hnd|].
  rewrite Hr. apply in_rev. rewrite rev_involutive.
  unfold parsed_records. apply in_flat_map. exists line. split; [exact Hin|].
  destruct (String.eqb_spec line EmptyString); [contradiction|].
  rewrite Hp. now left.
Qed.

Lemma X23_witness :
  let parse line :=
    if String.eqb line "a 1 2 3" then Some ("a"%string, mkV3 1 2 3)
    else if String.eqb line "b 4 5 6" then Some ("b"%string, mkV3 4 5 6)
    else None in
  let lines := ["a 1 2 3"; ""; "b 4 5 6"; ""]%string in
  let records := [("b"%string, mkV3 4 5 6); ("a"%string, mkV3 1 2 3)] in
  ReadSunOrSpacecraftPosition parse (Some lines) [("z"%string, mkV3 0 0 0)]
  = Val records
  /\ NoDup (map fst records).
Proof.
  intros parse lines records.
  assert (H : ReadSunOrSpacecraftPosition parse (Some lines)
                [("z"%string, mkV3 0 0 0)] = Val records) by reflexivity.
  split; [exact H|].
  exact (proj1 (proj2 (X23_read_positions_success parse lines _ records H))).
Defined.

(** X24: when the read ends the run.  The function either returns the
    records or exits, nothing else; it returns exactly when the file opens,
    every non-blank line parses and no key is repeated, so an unopened
    file, one unparsable line or one repeated key ends the program. *)
Theorem X24_read_positions_exit
    (parse : string -> option (string * Vector3))
    (file : option (list string)) (old : list (string * Vector3)) :
  let out := ReadSunOrSpacecraftPosition parse file old in
  ((exists records, out = Val records) \/ out = Exited)
  /\ ((exists records, out = Val records)
      <-> exists lines,
            file = Some lines
            /\ Forall (readable parse) lines
            /\ NoDup (map fst (parsed_records parse lines))).
Proof.
  intros out. unfold out, ReadSunOrSpacecraftPosition. split.
  - destruct file as [lines|]; [apply read_records_outcome|now right].
  - split.
    + intros [records H]. destruct file as [lines|]; [|discriminate].
      exists lines. split; [reflexivity|].
      apply read_records_val in H as (Hr & Hf & Hnd).
      split; [exact Hf|].
      specialize (Hnd (NoDup_nil _)). rewrite Hr, app_nil_r, map_rev in Hnd.
      apply NoDup_rev in Hnd. now rewrite rev_involutive in Hnd.
    + intros (lines & -> & Hf & Hnd).
      eexists. apply read_records_ok; [exact Hf|].
      rewrite app_nil_r, map_rev. now apply NoDup_rev.
Qed.
